(** * pkg-reader: the dpkg status parser of [app.js]

    A shallow embedding of the back end of pkg-reader ([app.js]): the
    regular expressions it declares, the JavaScript string and array
    operations it calls, and the two queries it serves ([getPackageNames]
    and [getInfoFor]), followed by the properties of the parser and of
    the dependency resolution.

    The only effect of the program is reading the status file; the text
    returned by [getFile(source)] is an explicit argument [file] here. *)

From Stdlib Require Import NArith String Ascii Lia.
From stdpp Require Import list.

(** ** The fragment of JavaScript that [app.js] relies on *)

Module JS.

(** A JavaScript string is a sequence of UTF-16 code units. *)
Abbreviation char := N (only parsing).
Abbreviation str := (list N) (only parsing).

(** ASCII literals of the source text. *)
Definition lit (s : string) : str := map N_of_ascii (list_ascii_of_string s).

(** The code unit of an ASCII character of the source text. *)
Definition ch (a : ascii) : char := N_of_ascii a.
Arguments ch a%_char.

(** A value that is either a string or [undefined] (the result of
    [match[1]], or of a function that falls off its end). *)
Abbreviation value := (option (list N)) (only parsing).
Abbreviation undefined := (@None (list N)) (only parsing).

(** ECMAScript LineTerminator: LF, CR, LS, PS. *)
Definition isLineTerminator (c : char) : bool :=
  (c =? 10)%N || (c =? 13)%N || (c =? 8232)%N || (c =? 8233)%N.

(** ECMAScript WhiteSpace: TAB, VT, FF, ZWNBSP and the category Zs. *)
Definition isWhiteSpace (c : char) : bool :=
  (c =? 9)%N || (c =? 11)%N || (c =? 12)%N || (c =? 32)%N || (c =? 160)%N
  || (c =? 5760)%N || ((8192 <=? c)%N && (c <=? 8202)%N)
  || (c =? 8239)%N || (c =? 8287)%N || (c =? 12288)%N || (c =? 65279)%N.

(** What [String.prototype.trim] strips. *)
Definition isTrimmed (c : char) : bool := isWhiteSpace c || isLineTerminator c.

Fixpoint dropWhile (p : char -> bool) (s : str) : str :=
  match s with
  | c :: s' => if p c then dropWhile p s' else s
  | [] => []
  end.

Definition trimStart (s : str) : str := dropWhile isTrimmed s.
Definition trimEnd (s : str) : str := rev (dropWhile isTrimmed (rev s)).
Definition trim (s : str) : str := trimEnd (trimStart s).

(** [Array.prototype.join('')]. *)
Definition join_empty (l : list str) : str := concat l.

(** [Array.prototype.includes] (SameValueZero, which on strings and
    [undefined] is equality). *)
Definition includes {A} `{EqDecision A} (l : list A) (x : A) : bool :=
  bool_decide (x ∈ l).

(** [new Set(l)] spread back into an array: a [Set] keeps its elements
    in insertion order and [add] ignores an element already present. *)
Definition Set_add {A} `{EqDecision A} (s : list A) (x : A) : list A :=
  if includes s x then s else s ++ [x].
Definition Set_of {A} `{EqDecision A} (l : list A) : list A :=
  fold_left Set_add l [].

(** [String.prototype.split(sep)] without a limit. *)
Fixpoint startsWith (p s : str) : bool :=
  match p, s with
  | [], _ => true
  | a :: p', b :: s' => (a =? b)%N && startsWith p' s'
  | _ :: _, [] => false
  end.

Fixpoint split_go (sep : str) (skip : nat) (cur : str) (s : str) : list str :=
  match s with
  | [] => [cur]
  | c :: s' =>
      match skip with
      | S n => split_go sep n cur s'
      | O =>
          if startsWith sep s
          then cur :: split_go sep (length sep - 1) [] s'
          else split_go sep 0 (cur ++ [c]) s'
      end
  end.

Definition split (sep s : str) : list str :=
  match sep with
  | [] => map (fun c => [c]) s
  | _ => split_go sep 0 [] s
  end.

(** *** Regular expressions

    The constructs that occur in the patterns of [app.js], with the
    backtracking semantics of ECMAScript: a quantifier tries its
    alternatives in order of priority (greedy: longest first; lazy:
    shortest first) and the first overall success wins. Quantifiers
    occur in the source only on a single character class or the dot. *)
Inductive regex : Type :=
| Eps
| Bol                          (* ^  (no m flag: start of input) *)
| Eol                          (* $  (no m flag: end of input)   *)
| Chr (c : char)               (* a literal character            *)
| Cls (p : char -> bool)       (* [...] or .                     *)
| Star (p : char -> bool)      (* p*                             *)
| StarLazy (p : char -> bool)  (* p*?                            *)
| Cat (r1 r2 : regex)
| Cap (r : regex).             (* ( r ), the capture group 1     *)

Definition Plus (p : char -> bool) : regex := Cat (Cls p) (Star p).
Definition Seq (rs : list regex) : regex := foldr Cat Eps rs.
Definition Text (s : string) : regex := Seq (map Chr (lit s)).

(** The dot without the s flag. *)
Definition dot (c : char) : bool := negb (isLineTerminator c).

Section matcher.
Context {R : Type}.

(** A continuation receives the index reached, the input left and the
    capture. *)
Definition K := nat -> str -> value -> option R.

Fixpoint star_greedy (p : char -> bool) (k : nat -> str -> option R)
    (i : nat) (s : str) : option R :=
  match s with
  | c :: s' =>
      if p c then
        match star_greedy p k (S i) s' with
        | Some r => Some r
        | None => k i s
        end
      else k i s
  | [] => k i s
  end.

Fixpoint star_lazy (p : char -> bool) (k : nat -> str -> option R)
    (i : nat) (s : str) : option R :=
  match k i s with
  | Some r => Some r
  | None =>
      match s with
      | c :: s' => if p c then star_lazy p k (S i) s' else None
      | [] => None
      end
  end.

Fixpoint run (r : regex) (k : K) (i : nat) (s : str) (g : value)
    : option R :=
  match r with
  | Eps => k i s g
  | Bol => if Nat.eqb i 0 then k i s g else None
  | Eol => match s with [] => k i s g | _ :: _ => None end
  | Chr c =>
      match s with
      | x :: s' => if (x =? c)%N then k (S i) s' g else None
      | [] => None
      end
  | Cls p =>
      match s with
      | x :: s' => if p x then k (S i) s' g else None
      | [] => None
      end
  | Star p => star_greedy p (fun i' s' => k i' s' g) i s
  | StarLazy p => star_lazy p (fun i' s' => k i' s' g) i s
  | Cat r1 r2 => run r1 (run r2 k) i s g
  | Cap r' => run r' (fun i' s' _ => k i' s' (Some (take (i' - i) s))) i s g
  end.
End matcher.

(** A successful match: where it starts, where it ends, and group 1. *)
Record matched := { m_start : nat; m_end : nat; m_group1 : value }.

(** The final continuation: the whole pattern has matched up to [e]. *)
Definition finish (i : nat) : @K matched :=
  fun e _ g => Some {| m_start := i; m_end := e; m_group1 := g |}.

(** The match that starts at index [i], where [s] is the input from [i]. *)
Definition match_at (r : regex) (i : nat) (s : str) : option matched :=
  run r (finish i) i s None.

(** The leftmost match at or after index [i]. *)
Fixpoint search (r : regex) (i : nat) (s : str) : option matched :=
  match match_at r i s with
  | Some m => Some m
  | None =>
      match s with
      | [] => None
      | _ :: s' => search r (S i) s'
      end
  end.

(** [s.match(r)] for a regular expression without the g flag; [None] is
    JavaScript's [null]. *)
Definition str_match (s : str) (r : regex) : option matched := search r 0 s.

(** A match result used as a condition: [null] is falsy. *)
Definition matches (s : str) (r : regex) : bool :=
  match str_match s r with Some _ => true | None => false end.

(** [s.replace(r, rep)] for a regular expression with the g flag and a
    replacement string without [$] patterns. After an empty match the
    search resumes one code unit further. *)
Fixpoint replace_go (r : regex) (rep : str) (skip i : nat) (s : str) : str :=
  match s with
  | [] =>
      match skip, match_at r i [] with
      | O, Some _ => rep
      | _, _ => []
      end
  | c :: s' =>
      match skip with
      | S n => replace_go r rep n (S i) s'
      | O =>
          match match_at r i s with
          | Some m =>
              match m_end m - i with
              | O => rep ++ c :: replace_go r rep 0 (S i) s'
              | S n => rep ++ replace_go r rep n (S i) s'
              end
          | None => c :: replace_go r rep 0 (S i) s'
          end
      end
  end.

Definition replace (s : str) (r : regex) (rep : str) : str :=
  replace_go r rep 0 0 s.

End JS.

(** ** [app.js] *)

Module App.
Import JS.

(** [[ |\t]]: a space, a vertical bar or a tab. *)
Definition blank (c : char) : bool :=
  (c =? ch " ")%N || (c =? ch "|")%N || (c =? ch "009")%N.

(** [/^Package:[ |\t]*(.+)[ |\t]*$/] *)
Definition packageNameParser : regex :=
  Seq [Bol; Text "Package:"; Star blank; Cap (Plus dot); Star blank; Eol].

(** [/^Description:[ |\t]*(.+)[ |\t]*$/] *)
Definition descriptionSummaryParser : regex :=
  Seq [Bol; Text "Description:"; Star blank; Cap (Plus dot); Star blank; Eol].

(** [/^Depends:[ |\t]*(.+)[ |\t]*$/] *)
Definition dependencyParser : regex :=
  Seq [Bol; Text "Depends:"; Star blank; Cap (Plus dot); Star blank; Eol].

(** [/^[ |\t]+/] *)
Definition startsWithWhitespaceParser : regex := Seq [Bol; Plus blank].

(** [/ \(.*?\)/g] *)
Definition versionParser : regex :=
  Seq [Chr (ch " "); Chr (ch "("); StarLazy dot; Chr (ch ")")].

(** [/,/g] *)
Definition commasParser : regex := Chr (ch ",").

Definition splitIntoParagraphs (textData : str) : list str :=
  split (lit (String "010" (String "010" EmptyString))) textData.

Definition splitIntoLines (textData : str) : list str :=
  split (lit (String "010" EmptyString)) textData.

(** [getAsParagraphs(source)], with the contents of the file given. *)
Definition getAsParagraphs (file : str) : list str := splitIntoParagraphs file.

Definition joinDescriptionLines (description : list str) : str :=
  trim (join_empty description).

Definition parseDependencyString (dependencies : str) : str :=
  replace (replace dependencies versionParser []) commasParser [].

(** The three [getXFrom] loops return at the first line that matches
    and fall off the end ([undefined]) when none does. *)
Fixpoint getNameFrom (packageInfo : list str) : value :=
  match packageInfo with
  | [] => undefined
  | line :: rest =>
      match str_match line packageNameParser with
      | Some nameMatch => m_group1 nameMatch
      | None => getNameFrom rest
      end
  end.

Fixpoint getSummaryFrom (packageInfo : list str) : value :=
  match packageInfo with
  | [] => undefined
  | line :: rest =>
      match str_match line descriptionSummaryParser with
      | Some descriptionMatch => m_group1 descriptionMatch
      | None => getSummaryFrom rest
      end
  end.

(** A captured group that is [undefined] cannot be passed on as a
    string; the group of [dependencyParser] always takes part in a
    match, so the default is never used. *)
Definition string_of (v : value) : str := default [] v.

Fixpoint getDependenciesFrom (packageInfo : list str) : str :=
  match packageInfo with
  | [] => []
  | line :: rest =>
      match str_match line dependencyParser with
      | Some dependencyMatch =>
          parseDependencyString (string_of (m_group1 dependencyMatch))
      | None => getDependenciesFrom rest
      end
  end.

(** The loop of [getDescriptionFrom]: the state is the array
    [description] and the flag [saveDescription]. *)
Definition description_step (st : list str * bool) (line : str)
    : list str * bool :=
  let '(description, saveDescription) := st in
  if matches line startsWithWhitespaceParser && saveDescription
  then (description ++ [line], saveDescription)
  else
    let saveDescription := false in
    if matches line descriptionSummaryParser
    then (description, true)
    else (description, saveDescription).

Definition getDescriptionFrom (packageInfo : list str) : str :=
  joinDescriptionLines (fst (fold_left description_step packageInfo ([], false))).

Definition isDependentOn (nameToFind : str) (packageInfo : list str) : bool :=
  let dependencies := getDependenciesFrom packageInfo in
  includes (split (lit " ") dependencies) nameToFind.

Record dependency := { name : str; found : bool }.

(** A non-empty string is truthy. *)
Definition truthy (s : str) : bool := match s with [] => false | _ => true end.

Definition findDependenciesFor (dependenciesAsString : str)
    (allPackageNames : list value) : list dependency :=
  if truthy dependenciesAsString then
    let dependencyList := split (lit " ") dependenciesAsString in
    let uniqueDependencies := Set_of dependencyList in
    fold_left
      (fun dependencyObjects dependency =>
         dependencyObjects ++
           [{| name := dependency;
               found := if includes allPackageNames (Some dependency)
                        then true else false |}])
      uniqueDependencies []
  else [].

(** [getPackageNames]: the file is split into lines (not paragraphs) and
    every matching line pushes its captured group. *)
Definition getPackageNames (file : str) : list value :=
  let lines := splitIntoLines file in
  fold_left
    (fun names line =>
       match str_match line packageNameParser with
       | Some m => names ++ [m_group1 m]
       | None => names
       end)
    lines [].

(** The local variables of [getInfoFor] that its loop updates. *)
Record scan := {
  summary : value;
  description : str;
  dependenciesTemp : str;
  dependents : list value;
  allPackageNames : list value
}.

Definition scan_init : scan :=
  {| summary := Some []; description := []; dependenciesTemp := [];
     dependents := []; allPackageNames := [] |}.

(** One iteration of [for (const package of allPackages)]. *)
Definition scan_step (packageName : str) (st : scan) (package : str) : scan :=
  let lines := splitIntoLines package in
  let currentName := getNameFrom lines in
  let names := allPackageNames st ++ [currentName] in
  let isCorrectPackage := bool_decide (currentName = Some packageName) in
  if negb isCorrectPackage && isDependentOn packageName lines then
    {| summary := summary st; description := description st;
       dependenciesTemp := dependenciesTemp st;
       dependents := dependents st ++ [currentName];
       allPackageNames := names |}
  else if negb isCorrectPackage then
    {| summary := summary st; description := description st;
       dependenciesTemp := dependenciesTemp st;
       dependents := dependents st;
       allPackageNames := names |}
  else
    {| summary := getSummaryFrom lines;
       description := getDescriptionFrom lines;
       dependenciesTemp := getDependenciesFrom lines;
       dependents := dependents st;
       allPackageNames := names |}.

Definition scan_all (packageName : str) (file : str) : scan :=
  fold_left (scan_step packageName) (getAsParagraphs file) scan_init.

(** The object returned by [getInfoFor]. *)
Record info := {
  i_summary : value;
  i_description : str;
  i_depends : list dependency;
  i_dependents : list value
}.

Definition getInfoFor (file : str) (packageName : str) : info :=
  let st := scan_all packageName file in
  let dependencies :=
    findDependenciesFor (dependenciesTemp st) (allPackageNames st) in
  {| i_summary := summary st; i_description := description st;
     i_depends := dependencies; i_dependents := dependents st |}.

End App.

(** ** Notions used to state the properties *)

Module Spec.
Import JS App.

(** The Package value of a stanza and its flat list of Depends tokens. *)
Definition packageValue (stanza : str) : value :=
  getNameFrom (splitIntoLines stanza).

Definition flatTokens (stanza : str) : list str :=
  split (lit " ") (getDependenciesFrom (splitIntoLines stanza)).

(** The token sequence that the resolver works on: an empty dependency
    string has no token at all. *)
Definition dependencyTokens (dependenciesAsString : str) : list str :=
  if truthy dependenciesAsString
  then split (lit " ") dependenciesAsString else [].

(** The target of a query: the last stanza, in file order, whose Package
    value is the queried name. *)
Definition target (packageName : str) (stanzas : list str) : option str :=
  last (filter (fun p => packageValue p = Some packageName) stanzas).

(** A stanza counts as a dependent of [packageName]. *)
Definition dependsOn (packageName : str) (stanza : str) : Prop :=
  packageValue stanza <> Some packageName /\ packageName ∈ flatTokens stanza.

#[export] Instance dependsOn_dec q p : Decision (dependsOn q p).
Proof. unfold dependsOn. apply _. Defined.

(** Deduplication that keeps the first occurrence of every element. *)
Fixpoint dedup_first {A} `{EqDecision A} (l : list A) : list A :=
  match l with
  | [] => []
  | x :: l' => x :: filter (fun y => y <> x) (dedup_first l')
  end.

#[export] Instance dependency_eq_dec : EqDecision dependency.
Proof. solve_decision. Defined.

(** The resolution of one token against the names of the file. *)
Definition resolve (allPackageNames : list (option (list N))) (t : list N)
    : dependency :=
  {| name := t; found := bool_decide (Some t ∈ allPackageNames) |}.

(** The three field patterns are one pattern up to the field name. *)
Definition field_regex (t : str) : regex :=
  Seq [Bol; Seq (map Chr t); Star blank; Cap (Plus dot); Star blank; Eol].

(** What group 1 of a field pattern holds for the text after the colon:
    the leading blanks are dropped, but never the last character. *)
Fixpoint fieldValue (r : str) : str :=
  match r with
  | [] => []
  | c :: r' =>
      match r' with
      | [] => [c]
      | _ :: _ => if blank c then fieldValue r' else r
      end
  end.

Definition field_capture (t line : str) : option str :=
  if startsWith t line then
    let r := drop (length t) line in
    if truthy r && forallb dot r then Some (fieldValue r) else None
  else None.

(** The number of characters before the first closing parenthesis, when
    no line terminator comes before it. *)
Fixpoint closing (t : str) : option nat :=
  match t with
  | [] => None
  | c :: t' =>
      if (c =? ch ")")%N then Some 0
      else if dot c then S <$> closing t' else None
  end.

(** A string starts with a version constraint: a space, an opening
    parenthesis, and a closing parenthesis further on the same line. *)
Definition starts_version (s : str) : Prop :=
  exists body rest,
    s = lit " (" ++ body ++ ch ")" :: rest /\ forallb dot body = true.

(** Removal of the version constraints, read from left to right; a
    constraint ends at the first closing parenthesis. *)
Inductive strip_versions : str -> str -> Prop :=
| sv_nil : strip_versions [] []
| sv_version body rest out :
    forallb (fun c => dot c && negb (c =? ch ")")%N) body = true ->
    strip_versions rest out ->
    strip_versions (lit " (" ++ body ++ ch ")" :: rest) out
| sv_keep c s out :
    ~ starts_version (c :: s) ->
    strip_versions s out ->
    strip_versions (c :: s) (c :: out).

(** Splitting on one character, and its inverse. *)
Fixpoint split_on (c : char) (s : str) : list str :=
  match s with
  | [] => [[]]
  | x :: s' =>
      if (x =? c)%N then [] :: split_on c s'
      else
        match split_on c s' with
        | t :: ts => (x :: t) :: ts
        | [] => [[x]]
        end
  end.

Fixpoint join_with (c : char) (l : list str) : str :=
  match l with
  | [] => []
  | [t] => t
  | t :: ts => t ++ c :: join_with c ts
  end.

Definition count_char (c : char) (s : str) : nat :=
  length (filter (fun x => x = c) s).

(** A line that continues a description. *)
Definition isContinuation (line : str) : bool :=
  match line with c :: _ => blank c | [] => false end.

(** A file given line by line. *)
Definition LF : string := String "010" EmptyString.
Definition file_of (lines : list string) : str := lit (String.concat LF lines).

(** Joining with a separator string, the inverse of [split]. *)
Fixpoint join_sep (sep : str) (l : list str) : str :=
  match l with
  | [] => []
  | t :: ts =>
      match ts with
      | [] => t
      | _ :: _ => t ++ sep ++ join_sep sep ts
      end
  end.

(** [p] occurs in [s]. *)
Definition occurs_in (p s : str) : Prop := exists a b, s = a ++ p ++ b.

(** The line feed and the blank line that separates two stanzas. *)
Definition line_feed : str := lit LF.
Definition blank_line : str := lit (LF ++ LF).

(** A line of a field: the pattern of the field matches it. *)
Definition is_field_line (r : regex) (line : str) : Prop :=
  is_Some (str_match line r).

End Spec.

(** ** [index.html]: the list of names by first letter *)

Module Front.
Import JS.

(** A JavaScript [Map] from strings to arrays of strings: the entries in
    insertion order; [set] on a key already present keeps its place. *)
Fixpoint Map_get (m : list (str * list str)) (k : str) : option (list str) :=
  match m with
  | [] => None
  | (k', v') :: m' => if decide (k' = k) then Some v' else Map_get m' k
  end.

Definition Map_has (m : list (str * list str)) (k : str) : bool :=
  match Map_get m k with Some _ => true | None => false end.

Fixpoint Map_set (m : list (str * list str)) (k : str) (v : list str)
    : list (str * list str) :=
  match m with
  | [] => [(k, v)]
  | (k', v') :: m' =>
      if decide (k' = k) then (k', v) :: m' else (k', v') :: Map_set m' k v
  end.

(** [name.charAt(0)]: the first code unit, or the empty string. *)
Definition charAt0 (name : str) : str := take 1 name.

(** The body of [names.forEach] in [createPackageList]. [get] is only
    called on a key that [has] found or [set] has just added. *)
Definition alphabetize_step (alphabetized : list (str * list str))
    (name : str) : list (str * list str) :=
  let firstLetter := charAt0 name in
  let alphabetized :=
    if negb (Map_has alphabetized firstLetter)
    then Map_set alphabetized firstLetter []
    else alphabetized in
  Map_set alphabetized firstLetter
    (default [] (Map_get alphabetized firstLetter) ++ [name]).

(** The map [alphabetized] that [createPackageList] builds from the
    names, before it turns every key into a section of the page. *)
Definition alphabetize (names : list str) : list (str * list str) :=
  fold_left alphabetize_step names [].

End Front.

(** ** Sample status files *)

Module Examples.
Import JS Spec.
#[local] Open Scope string_scope.

(** The scenario of the README-style test: [alpha] depends on [beta]. *)
Definition alpha_stanza : list N :=
  file_of ["Package: alpha"; "Description: short alpha"; " long alpha text";
           "Depends: beta (>= 1.0), gamma"].
Definition beta_stanza : list N :=
  file_of ["Package: beta"; "Description: short beta"].
Definition alpha_beta : list N :=
  file_of ["Package: alpha"; "Description: short alpha"; " long alpha text";
           "Depends: beta (>= 1.0), gamma"; "";
           "Package: beta"; "Description: short beta"].

(** A file that repeats the Package value [a]. *)
Definition a_first : list N := file_of ["Package: a"; "Depends: b"].
Definition b_only : list N := file_of ["Package: b"].
Definition a_last : list N := file_of ["Package: a"; "Description: second"].
Definition repeated_a : list N :=
  file_of ["Package: a"; "Depends: b"; ""; "Package: b"; "";
           "Package: a"; "Description: second"].

(** A space before a comma in a Depends line. *)
Definition spaced_comma : list N :=
  file_of ["Package: a"; "Depends: foo (>= 1.0) , bar"].

(** A stanza without a Package line. *)
Definition nameless_stanza : list N := file_of ["Depends: beta"].
Definition nameless : list N :=
  file_of ["Depends: beta"; ""; "Package: beta"].

(** The stanza of the description example. *)
Definition short_description : list (list N) :=
  [lit "Description: short"; lit " more text"; lit " continued"].

(** A Package line that ends with a space. *)
Definition trailing_space : list N := file_of ["Package: foo "].

(** A line that ends with a carriage return. *)
Definition crlf_line : list N := lit "Package: foo" ++ [13%N].

(** A stanza with a Description field between two other fields. *)
Definition gamma_stanza : list (list N) :=
  [lit "Package: gamma"; lit "Description: short gamma"; lit " first";
   lit " second"; lit "Depends: alpha"; lit " not a description"].

(** A stanza with neither Description nor Depends. *)
Definition bare_stanza : list N := file_of ["Package: bare"].
Definition bare_file : list N :=
  file_of ["Package: bare"; ""; "Package: other"; "Depends: bare"].

End Examples.

Import JS App Spec Examples.

(** ** The regular-expression engine on the patterns of [app.js] *)

Section regex_facts.

Lemma blank_dot c : blank c = true -> dot c = true.
Proof.
  unfold blank, dot, isLineTerminator, ch; simpl.
  rewrite !orb_true_iff, !N.eqb_eq. intros [[->| ->]| ->]; reflexivity.
Qed.

Lemma blank_iff c :
  blank c = true <-> c = ch " " \/ c = ch "|" \/ c = ch "009".
Proof.
  unfold blank. rewrite !orb_true_iff, !N.eqb_eq. tauto.
Qed.

Lemma startsWith_app t s : startsWith t (t ++ s) = true.
Proof. induction t as [|a t IH]; simpl; [done|]. by rewrite N.eqb_refl. Qed.

Lemma startsWith_inv t s :
  startsWith t s = true -> s = t ++ drop (length t) s.
Proof.
  revert s; induction t as [|a t IH]; intros [|b s]; simpl; try done.
  rewrite andb_true_iff, N.eqb_eq. intros [-> H]. f_equal. by apply IH.
Qed.

(** A pattern anchored at the start of the input can only match at
    index 0. *)
Lemma search_Bol r i s : search (Cat Bol r) (S i) s = None.
Proof. revert i; induction s as [|c s IH]; intros i; simpl; auto. Qed.

Lemma str_match_Bol r s : str_match s (Cat Bol r) = match_at (Cat Bol r) 0 s.
Proof.
  unfold str_match. destruct s as [|c s]; simpl.
  - by destruct (match_at _ _ _).
  - rewrite search_Bol. by destruct (match_at _ _ _).
Qed.

(** A literal text consumes exactly itself. *)
Lemma run_text {R} t (k : @K R) i s g :
  run (Seq (map Chr t)) k i s g =
  if startsWith t s then k (i + length t) (drop (length t) s) g else None.
Proof.
  revert i s; induction t as [|a t IH]; intros i s; simpl.
  - by rewrite Nat.add_0_r.
  - destruct s as [|b s]; [done|]. rewrite (N.eqb_sym a b).
    destruct (b =? a)%N; simpl; [|done].
    rewrite IH. by replace (S i + length t) with (i + S (length t)) by lia.
Qed.

(** [[ |\t]*$]: succeeds exactly when only blanks are left. *)
Lemma star_blank_Eol {R} (f : nat -> R) i s :
  star_greedy blank
    (fun j u => match u with [] => Some (f j) | _ :: _ => None end) i s =
  if forallb blank s then Some (f (i + length s)) else None.
Proof.
  revert i; induction s as [|c s IH]; intros i; simpl.
  - by rewrite Nat.add_0_r.
  - destruct (blank c); simpl; [|done].
    rewrite IH. replace (S i + length s) with (i + S (length s)) by lia.
    by destruct (forallb blank s).
Qed.

Lemma forallb_blank_dot s : forallb blank s = true -> forallb dot s = true.
Proof.
  rewrite !forallb_forall. intros H c Hc. apply blank_dot; auto.
Qed.

(** [.*[ |\t]*$] after the first character of the group: being greedy,
    the dot takes everything, provided no line terminator is left. *)
Lemma star_dot_tail {R} (f : nat -> str -> R) i s :
  star_greedy dot
    (fun j u => if forallb blank u then Some (f j u) else None) i s =
  if forallb dot s then Some (f (i + length s) []) else None.
Proof.
  revert i; induction s as [|c s IH]; intros i; simpl.
  - by rewrite Nat.add_0_r.
  - destruct (dot c) eqn:Hc; simpl.
    + rewrite IH. replace (S i + length s) with (i + S (length s)) by lia.
      destruct (forallb dot s) eqn:Hs; [done|].
      destruct (blank c); simpl; [|done].
      destruct (forallb blank s) eqn:Hb; [|done].
      apply forallb_blank_dot in Hb. congruence.
    + destruct (blank c) eqn:Hb; [|done]. apply blank_dot in Hb. congruence.
Qed.

Lemma star_greedy_ext {R} p (k1 k2 : nat -> str -> option R) i s :
  (forall j u, k1 j u = k2 j u) ->
  star_greedy p k1 i s = star_greedy p k2 i s.
Proof.
  intros E. revert i; induction s as [|c s IH]; intros i; simpl; [done|].
  by rewrite IH, E.
Qed.

Lemma star_lazy_ext {R} p (k1 k2 : nat -> str -> option R) i s :
  (forall j u, k1 j u = k2 j u) ->
  star_lazy p k1 i s = star_lazy p k2 i s.
Proof.
  intros E. revert i; induction s as [|c s IH]; intros i; simpl.
  - by rewrite E.
  - by rewrite IH, E.
Qed.

(** [(.+)[ |\t]*$]: the group takes the whole rest of the line, the
    trailing blanks included. *)
Lemma run_group_tail i0 i s g :
  run (Seq [Cap (Plus dot); Star blank; Eol]) (finish i0) i s g =
  if truthy s && forallb dot s
  then Some {| m_start := i0; m_end := i + length s; m_group1 := Some s |}
  else None.
Proof.
  destruct s as [|x u]; simpl; [done|].
  destruct (dot x); simpl; [|done].
  erewrite star_greedy_ext.
  2:{ intros j v. apply (star_blank_Eol
        (fun e => {| m_start := i0; m_end := e;
                     m_group1 := Some (take (j - i) (x :: u)) |})). }
  rewrite (star_dot_tail
    (fun j v => {| m_start := i0; m_end := j + length v;
                   m_group1 := Some (take (j - i) (x :: u)) |})).
  destruct (forallb dot u); [|done].
  assert (E : S i + length u - i = length (x :: u)) by (simpl; lia).
  rewrite E, firstn_all. do 2 f_equal. simpl. lia.
Qed.

Lemma fieldValue_blank c s :
  blank c = true -> s <> [] -> fieldValue (c :: s) = fieldValue s.
Proof. intros Hc Hs. destruct s; [done|]. simpl. by rewrite Hc. Qed.

Lemma fieldValue_keep c s : blank c = false -> fieldValue (c :: s) = c :: s.
Proof. intros Hc. destruct s; [done|]. simpl. by rewrite Hc. Qed.

(** [[ |\t]*(.+)[ |\t]*$]: the leading blanks are given up to the
    group only as far as the group needs one character. *)
Lemma run_field_tail i0 i s g :
  run (Seq [Star blank; Cap (Plus dot); Star blank; Eol]) (finish i0) i s g =
  if truthy s && forallb dot s
  then Some {| m_start := i0; m_end := i + length s;
               m_group1 := Some (fieldValue s) |}
  else None.
Proof.
  change (run (Seq [Star blank; Cap (Plus dot); Star blank; Eol])
            (finish i0) i s g)
    with (star_greedy blank
            (fun j u => run (Seq [Cap (Plus dot); Star blank; Eol])
                          (finish i0) j u g) i s).
  erewrite star_greedy_ext by (intros; apply run_group_tail).
  revert i; induction s as [|c s IH]; intros i; [done|].
  cbn [star_greedy]. rewrite IH. clear IH.
  destruct (blank c) eqn:Hc.
  - pose proof (blank_dot _ Hc) as Hd.
    destruct s as [|d s]; [by (simpl; rewrite Hd)|].
    cbn [truthy andb length forallb]. rewrite Hd. cbn [andb].
    destruct (dot d && forallb dot s) eqn:Hs; [|done].
    rewrite (fieldValue_blank c (d :: s) Hc) by discriminate.
    do 2 f_equal. simpl. lia.
  - cbn [truthy andb]. rewrite fieldValue_keep by done. done.
Qed.

(** The field patterns, as [String.prototype.match] applies them. *)
Lemma str_match_field t line :
  str_match line (field_regex t) =
  (fun v => {| m_start := 0; m_end := length line; m_group1 := Some v |})
    <$> field_capture t line.
Proof.
  unfold field_regex. 
  change (Seq [Bol; Seq (map Chr t); Star blank; Cap (Plus dot); Star blank; Eol])
    with (Cat Bol (Cat (Seq (map Chr t))
            (Seq [Star blank; Cap (Plus dot); Star blank; Eol]))).
  rewrite str_match_Bol. unfold match_at. cbn [run Nat.eqb].
  rewrite run_text. unfold field_capture.
  destruct (startsWith t line) eqn:Ht; [|done].
  rewrite run_field_tail. cbn [Nat.add].
  destruct (truthy _ && forallb dot _); [|done]. simpl.
  do 2 f_equal. apply startsWith_inv in Ht.
  rewrite Ht at 2. by rewrite length_app.
Qed.

Lemma packageNameParser_field :
  packageNameParser = field_regex (lit "Package:").
Proof. reflexivity. Qed.

Lemma descriptionSummaryParser_field :
  descriptionSummaryParser = field_regex (lit "Description:").
Proof. reflexivity. Qed.

Lemma dependencyParser_field :
  dependencyParser = field_regex (lit "Depends:").
Proof. reflexivity. Qed.

(** [/^[ |\t]+/] only looks at the first character. *)
Lemma star_greedy_total {R} p (k : nat -> str -> option R) i s :
  (forall j u, is_Some (k j u)) -> is_Some (star_greedy p k i s).
Proof.
  intros Hk. revert i; induction s as [|c s IH]; intros i; simpl; [done|].
  destruct (p c); [|done]. destruct (IH (S i)) as [r ->]. eauto.
Qed.

Lemma matches_startsWithWhitespace line :
  matches line startsWithWhitespaceParser =
  match line with c :: _ => blank c | [] => false end.
Proof.
  unfold matches, startsWithWhitespaceParser.
  change (Seq [Bol; Plus blank]) with (Cat Bol (Cat (Plus blank) Eps)).
  rewrite str_match_Bol. unfold match_at. simpl.
  destruct line as [|c s]; [done|]. destruct (blank c); [|done].
  edestruct (star_greedy_total blank
               (fun i' s' => finish 0 i' s' None) 1 s) as [m ->]; [|done].
  intros; unfold finish; eauto.
Qed.

Lemma matches_field t line :
  matches line (field_regex t) = bool_decide (is_Some (field_capture t line)).
Proof.
  unfold matches. rewrite str_match_field.
  by destruct (field_capture t line).
Qed.

(** [/,/g] *)
Lemma match_at_commas i s :
  match_at commasParser i s =
  match s with
  | c :: _ =>
      if (c =? ch ",")%N
      then Some {| m_start := i; m_end := S i; m_group1 := None |} else None
  | [] => None
  end.
Proof. by destruct s. Qed.

Lemma replace_go_commas i s :
  replace_go commasParser [] 0 i s = filter (fun c => c <> ch ",") s.
Proof.
  revert i; induction s as [|c s IH]; intros i; [done|].
  cbn [replace_go]. rewrite match_at_commas.
  destruct (N.eqb_spec c (ch ",")) as [->|Hc].
  - cbn [m_end]. replace (S i - i) with 1 by lia. cbn [app].
    rewrite IH, filter_cons_False; [done|]. by intros [].
  - rewrite IH, filter_cons_True; done.
Qed.

(** [/ \(.*?\)/g]: the lazy dot stops at the first closing parenthesis. *)
Lemma star_lazy_closing i j t :
  star_lazy dot
    (fun i' s' => run (Seq [Chr (ch ")")]) (finish i) i' s' None) j t =
  (fun n => {| m_start := i; m_end := j + n + 1; m_group1 := None |})
    <$> closing t.
Proof.
  revert j; induction t as [|c t IH]; intros j; [done|].
  cbn [star_lazy closing]. cbn [run Seq foldr].
  destruct (c =? ch ")")%N.
  - simpl. do 2 f_equal. lia.
  - destruct (dot c); [|done]. rewrite IH.
    destruct (closing t); [|done]. simpl. do 2 f_equal. lia.
Qed.

Lemma match_at_version i s :
  match_at versionParser i s =
  match s with
  | a :: b :: t =>
      if (a =? ch " ")%N && (b =? ch "(")%N
      then (fun n => {| m_start := i; m_end := i + n + 3; m_group1 := None |})
             <$> closing t
      else None
  | _ => None
  end.
Proof.
  destruct s as [|a [|b t]]; [done| |].
  - unfold match_at, versionParser. cbn [run Seq foldr].
    by destruct (a =? ch " ")%N.
  - unfold match_at, versionParser. cbn [run Seq foldr].
    destruct (a =? ch " ")%N; [|done]. destruct (b =? ch "(")%N; [|done].
    cbn [andb].
    erewrite star_lazy_ext; [rewrite (star_lazy_closing i (S (S i)) t)|done].
    destruct (closing t); [|done]. simpl. do 2 f_equal. lia.
Qed.

Lemma closing_Some t n :
  closing t = Some n ->
  exists body rest,
    t = body ++ ch ")" :: rest /\ length body = n /\
    forallb (fun c => dot c && negb (c =? ch ")")%N) body = true.
Proof.
  revert n; induction t as [|c t IH]; intros n; [done|].
  cbn [closing]. destruct (N.eqb_spec c (ch ")")) as [->|Hc].
  - intros [= <-]. by exists [], t.
  - destruct (dot c) eqn:Hd; [|done].
    destruct (closing t) as [m|]; [|done]. intros [= <-].
    destruct (IH m eq_refl) as (body & rest & -> & <- & Hb).
    exists (c :: body), rest. split_and!; [done..|].
    cbn [forallb]. rewrite Hd, Hb. by destruct (N.eqb_spec c (ch ")")).
Qed.

Lemma closing_None t body rest :
  closing t = None -> t = body ++ ch ")" :: rest ->
  forallb dot body = true -> False.
Proof.
  revert body; induction t as [|c t IH]; intros body.
  - by destruct body.
  - cbn [closing]. destruct (N.eqb_spec c (ch ")")) as [->|Hc]; [done|].
    destruct body as [|d body]; simpl; intros Hn [= -> ->]; [done|].
    rewrite andb_true_iff. intros [Hd Hb]. rewrite Hd in Hn.
    destruct (closing _) eqn:E; [done|]. eauto.
Qed.

(** Characters covered by a match are skipped. *)
Lemma replace_go_skip r rep i pre rest :
  replace_go r rep (length pre) i (pre ++ rest) =
  replace_go r rep 0 (i + length pre) rest.
Proof.
  revert i; induction pre as [|c pre IH]; intros i; simpl.
  - by rewrite Nat.add_0_r.
  - rewrite IH. f_equal. lia.
Qed.

Lemma replace_go_version n : forall s i,
  length s <= n ->
  strip_versions s (replace_go versionParser [] 0 i s).
Proof.
  induction n as [|n IH]; intros s i Hn.
  - destruct s; [|simpl in Hn; lia]. constructor.
  - destruct s as [|a s]; [constructor|].
    cbn [replace_go]. rewrite match_at_version.
    destruct s as [|b t].
    { apply sv_keep; [|constructor].
      intros (body & rest & E & _). by destruct body. }
    destruct (N.eqb_spec a (ch " ")) as [->|Ha]; cbn [andb].
    2:{ apply sv_keep; [|apply IH; simpl in *; lia].
        intros (body & rest & [= E _] & _). done. }
    destruct (N.eqb_spec b (ch "(")) as [->|Hb].
    2:{ apply sv_keep; [|apply IH; simpl in *; lia].
        intros (body & rest & [= E _] & _). done. }
    destruct (closing t) as [m|] eqn:Hc; cbn [fmap option_fmap option_map].
    + destruct (closing_Some _ _ Hc) as (body & rest & -> & <- & Hbody).
      cbn [m_end]. replace (i + length body + 3 - i)
        with (S (length (ch "(" :: body ++ [ch ")"]))).
      2:{ simpl. rewrite length_app. simpl. lia. }
      cbn [app].
      replace (ch "(" :: body ++ ch ")" :: rest)
        with ((ch "(" :: body ++ [ch ")"]) ++ rest).
      2:{ simpl. by rewrite <- app_assoc. }
      rewrite replace_go_skip.
      replace (ch " " :: (ch "(" :: body ++ [ch ")"]) ++ rest)
        with (lit " (" ++ body ++ ch ")" :: rest).
      2:{ simpl. by rewrite <- app_assoc. }
      apply (sv_version body rest); [done|].
      apply IH. simpl in Hn. rewrite length_app in Hn. simpl in Hn. lia.
    + apply sv_keep; [|apply IH; simpl in *; lia].
      intros (body & rest & [= E] & Hd). eapply closing_None; eauto.
Qed.

(** The removal of version constraints is a function of the string:
    the first closing parenthesis is where a constraint ends. *)
Lemma first_closing_unique body body' rest rest' :
  forallb (fun c => dot c && negb (c =? ch ")")%N) body = true ->
  forallb (fun c => dot c && negb (c =? ch ")")%N) body' = true ->
  body ++ ch ")" :: rest = body' ++ ch ")" :: rest' ->
  body = body' /\ rest = rest'.
Proof.
  revert body'; induction body as [|c body IH]; intros [|c' body'];
    cbn [forallb app]; rewrite ?andb_true_iff; intros H H' E.
  - by injection E as ->.
  - injection E as <- _. destruct H' as [[_ H'] _]. by rewrite N.eqb_refl in H'.
  - injection E as -> _. destruct H as [[_ H] _]. by rewrite N.eqb_refl in H.
  - injection E as -> E. destruct (IH body') as [-> ->]; tauto.
Qed.

Lemma version_starts body rest :
  forallb (fun c => dot c && negb (c =? ch ")")%N) body = true ->
  starts_version (lit " (" ++ body ++ ch ")" :: rest).
Proof.
  intros H. exists body, rest. split; [done|].
  apply forallb_forall. intros c Hc.
  eapply forallb_forall in H; [|done]. by apply andb_true_iff in H as [? _].
Qed.

Lemma strip_versions_functional s o1 o2 :
  strip_versions s o1 -> strip_versions s o2 -> o1 = o2.
Proof.
  intros H1; revert o2.
  induction H1 as [|body rest out Hb _ IH|c s out Hn _ IH]; intros o2 H2.
  - remember [] as e eqn:E. destruct H2 as [|body' ? ? ? ?|]; [done| |done].
    by destruct body'.
  - remember (lit " (" ++ body ++ ch ")" :: rest) as e eqn:E.
    destruct H2 as [|body' rest' out' Hb' H2|c s out' Hn' H2]; [done| |].
    + apply (app_inv_head (lit " (")) in E.
      destruct (first_closing_unique _ _ _ _ Hb' Hb E) as [_ ->]. auto.
    + exfalso. apply Hn'. rewrite E. by apply version_starts.
  - remember (c :: s) as e eqn:E.
    destruct H2 as [|body' rest' out' Hb' H2|c' s' out' Hn' H2]; [done| |].
    + exfalso. apply Hn. by apply version_starts.
    + injection E as -> ->. f_equal. auto.
Qed.

End regex_facts.

(** ** Splitting, joining and sets *)

Section split_facts.
Variable c : N.

Lemma split_on_cons s : exists t ts, split_on c s = t :: ts.
Proof.
  induction s as [|x s (t & ts & IH)]; simpl; [by eauto|].
  destruct (x =? c)%N; [by eauto|]. rewrite IH. eauto.
Qed.

Lemma split_go_char cur s :
  split_go [c] 0 cur s =
  match split_on c s with t :: ts => (cur ++ t) :: ts | [] => [cur] end.
Proof.
  revert cur; induction s as [|x s IH]; intros cur.
  - simpl. by rewrite app_nil_r.
  - cbn [split_go startsWith split_on length Nat.sub].
    rewrite (N.eqb_sym c x), andb_true_r.
    destruct (x =? c)%N.
    + rewrite IH, app_nil_r. by destruct (split_on_cons s) as (t & ts & ->).
    + rewrite IH. destruct (split_on_cons s) as (t & ts & ->).
      by rewrite <- app_assoc.
Qed.

(** [s.split(c)] for a separator of one character. *)
Lemma split_char s : split [c] s = split_on c s.
Proof.
  unfold split. rewrite split_go_char.
  by destruct (split_on_cons s) as (t & ts & ->).
Qed.

Lemma join_split_on s : join_with c (split_on c s) = s.
Proof.
  induction s as [|x s IH]; [done|]. cbn [split_on].
  destruct (N.eqb_spec x c) as [->|Hx].
  - destruct (split_on_cons s) as (t & ts & E). rewrite E in *.
    change (c :: join_with c (t :: ts) = c :: s). by rewrite IH.
  - destruct (split_on_cons s) as (t & ts & E). rewrite E in *.
    destruct ts as [|u ts]; [simpl in *; congruence|].
    change (x :: join_with c (t :: u :: ts) = x :: s). by rewrite IH.
Qed.

Lemma split_on_no_sep s : Forall (fun t => c ∉ t) (split_on c s).
Proof.
  induction s as [|x s IH]; simpl.
  - repeat constructor. by intros ?%elem_of_nil.
  - destruct (N.eqb_spec x c) as [->|Hx].
    + constructor; [|done]. by intros ?%elem_of_nil.
    + destruct (split_on_cons s) as (t & ts & E). rewrite E in *.
      inversion_clear IH. constructor; [|done].
      rewrite elem_of_cons. intros [?|?]; congruence.
Qed.

Lemma length_split_on s : length (split_on c s) = S (count_char c s).
Proof.
  unfold count_char. induction s as [|x s IH]; [done|]. cbn [split_on].
  rewrite filter_cons. destruct (N.eqb_spec x c) as [->|Hx].
  - rewrite decide_True by done. simpl. by rewrite IH.
  - rewrite decide_False by done.
    destruct (split_on_cons s) as (t & ts & E). by rewrite E in *.
Qed.

Lemma split_on_app a b :
  split_on c (a ++ c :: b) = split_on c a ++ split_on c b.
Proof.
  induction a as [|x a IH]; simpl.
  - by rewrite N.eqb_refl.
  - rewrite IH. destruct (x =? c)%N; [done|].
    by destruct (split_on_cons a) as (t & ts & ->).
Qed.

Lemma split_on_id t : c ∉ t -> split_on c t = [t].
Proof.
  induction t as [|x t IH]; [done|]. rewrite not_elem_of_cons.
  intros [Hx Ht]. simpl. destruct (N.eqb_spec x c); [done|].
  by rewrite IH.
Qed.

(** The split is the only way to cut a string into pieces free of the
    separator. *)
Lemma split_on_join l :
  l <> [] -> Forall (fun t => c ∉ t) l -> split_on c (join_with c l) = l.
Proof.
  induction l as [|t l IH]; [done|]. intros _ H.
  apply Forall_cons in H as [Ht Hl].
  destruct l as [|u l]; [by apply split_on_id|].
  change (join_with c (t :: u :: l)) with (t ++ c :: join_with c (u :: l)).
  rewrite split_on_app, IH, split_on_id; done.
Qed.

(** Two adjacent separators, a leading or a trailing one, leave an
    empty piece. *)
Lemma split_on_adjacent a b : [] ∈ split_on c (a ++ c :: c :: b).
Proof.
  rewrite split_on_app. apply elem_of_app. right.
  simpl. rewrite N.eqb_refl. by left.
Qed.

Lemma split_on_trailing a : [] ∈ split_on c (a ++ [c]).
Proof. rewrite split_on_app. apply elem_of_app. right. by left. Qed.

End split_facts.

Section set_facts.
Context {A : Type} `{EqDecision A}.
Implicit Types l acc : list A.

Lemma filter_all (P : A -> Prop) `{forall x, Decision (P x)} l :
  Forall P l -> filter P l = l.
Proof.
  induction 1 as [|x l Hx _ IH]; [done|].
  by rewrite filter_cons_True, IH.
Qed.

Lemma dedup_first_filter (P : A -> Prop) `{forall x, Decision (P x)} l :
  dedup_first (filter P l) = filter P (dedup_first l).
Proof.
  induction l as [|y l IH]; [done|]. cbn [dedup_first].
  rewrite !filter_cons. destruct (decide (P y)) as [Hy|Hy].
  - cbn [dedup_first]. rewrite IH. f_equal.
    rewrite !list_filter_filter. apply list_filter_iff. tauto.
  - rewrite IH, list_filter_filter. apply list_filter_iff.
    intros x. split; [|tauto]. intros Hx. split; [done|]. congruence.
Qed.

Lemma elem_of_dedup_first l x : x ∈ dedup_first l <-> x ∈ l.
Proof.
  induction l as [|y l IH]; [done|]. cbn [dedup_first].
  rewrite !elem_of_cons, list_elem_of_filter, IH.
  destruct (decide (x = y)); tauto.
Qed.

Lemma NoDup_dedup_first l : NoDup (dedup_first l).
Proof.
  induction l as [|y l IH]; [constructor|]. cbn [dedup_first].
  constructor.
  - rewrite list_elem_of_filter. tauto.
  - by apply NoDup_filter.
Qed.

Lemma dedup_first_NoDup l : NoDup l -> dedup_first l = l.
Proof.
  induction 1 as [|y l Hy _ IH]; [done|]. cbn [dedup_first].
  rewrite IH. f_equal. apply filter_all.
  apply Forall_forall. intros x Hx ->. done.
Qed.

(** [[...new Set(l)]], started from a set that already holds [acc]. *)
Lemma fold_left_Set_add l acc :
  fold_left Set_add l acc = acc ++ dedup_first (filter (fun x => x ∉ acc) l).
Proof.
  revert acc; induction l as [|x l IH]; intros acc.
  - simpl. by rewrite app_nil_r.
  - cbn [fold_left]. rewrite IH, filter_cons. unfold Set_add, includes.
    destruct (decide (x ∈ acc)) as [Hx|Hx].
    + rewrite bool_decide_eq_true_2 by done.
      rewrite decide_False by tauto. done.
    + rewrite bool_decide_eq_false_2 by done.
      rewrite decide_True by done. cbn [dedup_first].
      rewrite <- app_assoc. cbn [app]. do 2 f_equal.
      rewrite <- dedup_first_filter, list_filter_filter. f_equal.
      apply list_filter_iff. intros y.
      rewrite elem_of_app, list_elem_of_singleton. tauto.
Qed.

Lemma Set_of_dedup_first l : Set_of l = dedup_first l.
Proof.
  unfold Set_of. rewrite fold_left_Set_add. cbn [app]. f_equal.
  apply filter_all, Forall_forall. intros x _. apply not_elem_of_nil.
Qed.

Lemma fold_left_push {B} (f : B -> list A) (l : list B) acc :
  fold_left (fun a x => a ++ f x) l acc = acc ++ concat (map f l).
Proof.
  revert acc; induction l as [|x l IH]; intros acc; simpl.
  - by rewrite app_nil_r.
  - by rewrite IH, app_assoc.
Qed.

End set_facts.

(** ** The functions of [app.js] *)

Section app_facts.
Implicit Types (line stanza q : list N) (lines : list (list N)).

Lemma fieldValue_nonempty r : r <> [] -> fieldValue r <> [].
Proof.
  induction r as [|c r IH]; [done|]. intros _. cbn [fieldValue].
  destruct r as [|d r]; [done|]. destruct (blank c); [|done].
  by apply IH.
Qed.

Lemma field_capture_nonempty t line v :
  field_capture t line = Some v -> v <> [].
Proof.
  unfold field_capture. destruct (startsWith t line); [|done].
  destruct (drop (length t) line) as [|c r] eqn:E; [done|].
  destruct (truthy _ && _); [|done]. intros [= <-].
  by apply (fieldValue_nonempty (c :: r)).
Qed.

(** A value that follows the blanks and has no line terminator is
    captured whole. *)
Lemma field_capture_value t ws c v :
  forallb blank ws = true -> blank c = false ->
  forallb dot (c :: v) = true ->
  field_capture t (t ++ ws ++ c :: v) = Some (c :: v).
Proof.
  intros Hws Hc Hv. unfold field_capture.
  rewrite startsWith_app, drop_app_length.
  assert (truthy (ws ++ c :: v) = true) as -> by by destruct ws.
  rewrite forallb_app, (forallb_blank_dot _ Hws), Hv. cbn [andb].
  f_equal. induction ws as [|w ws IH]; [by apply fieldValue_keep|].
  cbn [forallb] in Hws. apply andb_true_iff in Hws as [Hw Hws].
  cbn [app]. rewrite fieldValue_blank; [auto|done|by destruct ws].
Qed.

Lemma getNameFrom_cons line lines :
  getNameFrom (line :: lines) =
  match field_capture (lit "Package:") line with
  | Some v => Some v
  | None => getNameFrom lines
  end.
Proof.
  cbn [getNameFrom]. rewrite packageNameParser_field, str_match_field.
  by destruct (field_capture _ line).
Qed.

Lemma getSummaryFrom_cons line lines :
  getSummaryFrom (line :: lines) =
  match field_capture (lit "Description:") line with
  | Some v => Some v
  | None => getSummaryFrom lines
  end.
Proof.
  cbn [getSummaryFrom].
  rewrite descriptionSummaryParser_field, str_match_field.
  by destruct (field_capture _ line).
Qed.

Lemma getDependenciesFrom_cons line lines :
  getDependenciesFrom (line :: lines) =
  match field_capture (lit "Depends:") line with
  | Some v => parseDependencyString v
  | None => getDependenciesFrom lines
  end.
Proof.
  cbn [getDependenciesFrom].
  rewrite dependencyParser_field, str_match_field.
  by destruct (field_capture _ line).
Qed.

Lemma getNameFrom_nonempty lines v : getNameFrom lines = Some v -> v <> [].
Proof.
  induction lines as [|line lines IH]; [done|]. rewrite getNameFrom_cons.
  destruct (field_capture _ line) eqn:E; [|done].
  intros [= <-]. by eapply field_capture_nonempty.
Qed.

(** The resolver: the tokens without their repetitions, each one
    looked up among the names. *)
Lemma findDependenciesFor_resolve s names :
  findDependenciesFor s names =
  map (resolve names) (dedup_first (dependencyTokens s)).
Proof.
  unfold findDependenciesFor, dependencyTokens.
  destruct (truthy s); [|done].
  rewrite Set_of_dedup_first.
  rewrite (fold_left_push (fun t => [_])). cbn [app].
  induction (dedup_first _) as [|t l IH]; [done|].
  cbn [map concat app]. rewrite IH. f_equal.
  unfold resolve, includes. by destruct (bool_decide _).
Qed.

Lemma map_name_resolve names l : map name (map (resolve names) l) = l.
Proof. induction l as [|t l IH]; [done|]. simpl. by rewrite IH. Qed.

(** The name list: one entry for each matching line, in order. *)
Lemma getPackageNames_omap file :
  getPackageNames file =
  omap (fun line => m_group1 <$> str_match line packageNameParser)
       (splitIntoLines file).
Proof.
  unfold getPackageNames.
  enough (forall l acc,
    fold_left
      (fun names line =>
         match str_match line packageNameParser with
         | Some m => names ++ [m_group1 m]
         | None => names
         end) l acc =
    acc ++ omap (fun line => m_group1 <$> str_match line packageNameParser) l)
    as H by apply (H _ []).
  induction l as [|line l IH]; intros acc; cbn [fold_left omap list_omap].
  - by rewrite app_nil_r.
  - rewrite IH. destruct (str_match line _); simpl; [|done].
    by rewrite <- app_assoc.
Qed.

(** *** The scan of [getInfoFor] *)

Lemma isDependentOn_flatTokens q stanza :
  isDependentOn q (splitIntoLines stanza) = bool_decide (q ∈ flatTokens stanza).
Proof. reflexivity. Qed.

Lemma scan_names q stanzas st :
  allPackageNames (fold_left (scan_step q) stanzas st) =
  allPackageNames st ++ map packageValue stanzas.
Proof.
  revert st; induction stanzas as [|p ps IH]; intros st.
  - simpl. by rewrite app_nil_r.
  - cbn [fold_left map]. rewrite IH. unfold scan_step.
    destruct (negb _ && _); [|destruct (negb _)];
      cbn [allPackageNames]; by rewrite <- app_assoc.
Qed.

Lemma scan_dependents q stanzas st :
  dependents (fold_left (scan_step q) stanzas st) =
  dependents st ++ map packageValue (filter (dependsOn q) stanzas).
Proof.
  revert st; induction stanzas as [|p ps IH]; intros st.
  - simpl. by rewrite app_nil_r.
  - cbn [fold_left]. rewrite IH, filter_cons. unfold scan_step.
    rewrite isDependentOn_flatTokens. fold (packageValue p).
    destruct (decide (packageValue p = Some q)) as [Hn|Hn].
    + rewrite bool_decide_eq_true_2 by done. cbn [negb andb dependents].
      rewrite decide_False by (unfold dependsOn; tauto). done.
    + rewrite bool_decide_eq_false_2 by done. cbn [negb andb].
      destruct (decide (q ∈ flatTokens p)) as [Hd|Hd].
      * rewrite bool_decide_eq_true_2 by done. cbn [dependents].
        rewrite decide_True by done. cbn [map]. by rewrite <- app_assoc.
      * rewrite bool_decide_eq_false_2 by done. cbn [dependents].
        rewrite decide_False by (unfold dependsOn; tauto). done.
Qed.

Lemma target_snoc q stanzas p :
  target q (stanzas ++ [p]) =
  if decide (packageValue p = Some q) then Some p else target q stanzas.
Proof.
  unfold target. rewrite filter_app, filter_cons, filter_nil.
  destruct (decide _); [by rewrite last_snoc|by rewrite app_nil_r].
Qed.

(** The captured fields are those of the target, or the initial ones
    in the absence of a target. *)
Lemma scan_target q stanzas st :
  let r := fold_left (scan_step q) stanzas st in
  match target q stanzas with
  | Some p =>
      summary r = getSummaryFrom (splitIntoLines p) /\
      description r = getDescriptionFrom (splitIntoLines p) /\
      dependenciesTemp r = getDependenciesFrom (splitIntoLines p)
  | None =>
      summary r = summary st /\ description r = description st /\
      dependenciesTemp r = dependenciesTemp st
  end.
Proof.
  induction stanzas as [|p ps IH] using rev_ind; [done|].
  rewrite target_snoc, fold_left_app. cbn [fold_left].
  cbn zeta in IH. set (r := fold_left (scan_step q) ps st) in *.
  unfold scan_step. fold (packageValue p).
  destruct (decide (packageValue p = Some q)) as [Hn|Hn].
  - rewrite bool_decide_eq_true_2 by done. done.
  - rewrite bool_decide_eq_false_2 by done. cbn [negb andb].
    by destruct (isDependentOn q _).
Qed.

Lemma target_last q pre p post :
  packageValue p = Some q ->
  Forall (fun s => packageValue s <> Some q) post ->
  target q (pre ++ p :: post) = Some p.
Proof.
  intros Hp Hpost. unfold target.
  rewrite filter_app, filter_cons_True by done.
  replace (filter _ post) with (@nil (list N)); [apply last_snoc|].
  symmetry. induction Hpost as [|s post Hs _ IH]; [done|].
  by rewrite filter_cons_False.
Qed.

Lemma target_None q stanzas :
  Forall (fun s => packageValue s <> Some q) stanzas ->
  target q stanzas = None.
Proof.
  intros H. unfold target. induction H as [|s l Hs _ IH]; [done|].
  by rewrite filter_cons_False.
Qed.

End app_facts.

(** ** Dependency resolution *)

Ltac by_compute := apply (bool_decide_unpack _); vm_compute; exact I.

Lemma getInfoFor_depends file q :
  i_depends (getInfoFor file q) =
  map (resolve (map packageValue (getAsParagraphs file)))
      (dedup_first
         (match target q (getAsParagraphs file) with
          | Some t => dependencyTokens (getDependenciesFrom (splitIntoLines t))
          | None => []
          end)).
Proof.
  unfold getInfoFor, scan_all. cbn [i_depends].
  rewrite findDependenciesFor_resolve, scan_names. cbn [scan_init app allPackageNames].
  pose proof (scan_target q (getAsParagraphs file) scan_init) as H.
  cbn zeta in H. destruct (target q _) as [t|].
  - destruct H as (_ & _ & ->). done.
  - destruct H as (_ & _ & ->). done.
Qed.

Lemma getInfoFor_dependents file q :
  i_dependents (getInfoFor file q) =
  map packageValue (filter (dependsOn q) (getAsParagraphs file)).
Proof. unfold getInfoFor, scan_all. cbn [i_dependents]. by rewrite scan_dependents. Qed.

Lemma getInfoFor_summary file q :
  i_summary (getInfoFor file q) =
  match target q (getAsParagraphs file) with
  | Some t => getSummaryFrom (splitIntoLines t)
  | None => Some []
  end.
Proof.
  pose proof (scan_target q (getAsParagraphs file) scan_init) as H.
  cbn zeta in H. unfold getInfoFor, scan_all. cbn [i_summary].
  destruct (target q _); by destruct H as (-> & _ & _).
Qed.

Lemma getInfoFor_description file q :
  i_description (getInfoFor file q) =
  match target q (getAsParagraphs file) with
  | Some t => getDescriptionFrom (splitIntoLines t)
  | None => []
  end.
Proof.
  pose proof (scan_target q (getAsParagraphs file) scan_init) as H.
  cbn zeta in H. unfold getInfoFor, scan_all. cbn [i_description].
  destruct (target q _); by destruct H as (_ & -> & _).
Qed.

Lemma info_eta (r : info) :
  r = {| i_summary := i_summary r; i_description := i_description r;
         i_depends := i_depends r; i_dependents := i_dependents r |}.
Proof. by destruct r. Qed.

(** C1. The depends list of a detail query is the dependency token
    sequence of the target stanza (the last one bearing the queried
    name), deduplicated with the first occurrences kept in order, the
    divider [|] being a token like any other; every entry [d] has
    [found d] true exactly when some stanza of the file has [name d] as
    its Package value. *)
Theorem C1_depends_resolution (file packageName : list N) :
  let stanzas := getAsParagraphs file in
  let tokens :=
    match target packageName stanzas with
    | Some t => dependencyTokens (getDependenciesFrom (splitIntoLines t))
    | None => []
    end in
  let depends := i_depends (getInfoFor file packageName) in
  depends = map (resolve (map packageValue stanzas)) (dedup_first tokens) /\
  map name depends = dedup_first tokens /\
  (forall d, d ∈ depends ->
     (found d = true <->
      exists stanza, stanza ∈ stanzas /\ packageValue stanza = Some (name d))).
Proof.
  cbn zeta. rewrite getInfoFor_depends.
  set (tokens := match target _ _ with Some _ => _ | None => _ end).
  split; [done|]. split; [apply map_name_resolve|].
  intros d (t & -> & _)%list_elem_of_fmap. unfold resolve; cbn [found name].
  rewrite bool_decide_eq_true, list_elem_of_fmap. split.
  - intros (stanza & E & Hin). eauto.
  - intros (stanza & Hin & E). eauto.
Qed.

(** C2 fails as stated when the file repeats a Package value: the
    stanza A that depends on [b] is followed by another stanza named
    [a], which is the one the query for [a] reports. *)
Lemma C2_counterexample :
  a_first ∈ getAsParagraphs repeated_a /\
  b_only ∈ getAsParagraphs repeated_a /\
  packageValue a_first = Some (lit "a") /\
  packageValue b_only = Some (lit "b") /\
  lit "a" <> lit "b" /\ lit "b" ∈ flatTokens a_first /\
  ~ {| name := lit "b"; found := true |}
      ∈ i_depends (getInfoFor repeated_a (lit "a")).
Proof. split_and!; by_compute. Qed.

(** C2, amended. For a stanza A named [a] whose Depends tokens include
    [b] and a stanza named [b], with [a] different from [b]: the query
    for [b] lists [a] among the dependents; the query for [a] reports
    [b] in depends with [found] true provided A is the last stanza of
    the file named [a]; and for every queried name the dependents are
    the names, in file order, of the stanzas whose Package value is not
    the queried name and whose flat token list contains it. *)
Theorem C2_reverse_dependency (file A B a b : list N) :
  A ∈ getAsParagraphs file -> B ∈ getAsParagraphs file ->
  packageValue A = Some a -> packageValue B = Some b ->
  a <> b -> b ∈ flatTokens A ->
  Some a ∈ i_dependents (getInfoFor file b) /\
  (target a (getAsParagraphs file) = Some A ->
   {| name := b; found := true |} ∈ i_depends (getInfoFor file a)) /\
  (forall q,
     i_dependents (getInfoFor file q) =
     map packageValue (filter (dependsOn q) (getAsParagraphs file))) /\
  (forall q stanza,
     stanza ∈ filter (dependsOn q) (getAsParagraphs file) <->
     stanza ∈ getAsParagraphs file /\
     packageValue stanza <> Some q /\ q ∈ flatTokens stanza).
Proof.
  intros HA HB Ha Hb Hab Hdep. split_and!.
  - rewrite getInfoFor_dependents, <- Ha. apply list_elem_of_fmap_2.
    apply list_elem_of_filter. split; [|done]. split; [|done].
    rewrite Ha. congruence.
  - intros Ht. rewrite getInfoFor_depends, Ht.
    apply list_elem_of_fmap. exists b. split.
    + unfold resolve. f_equal. symmetry. apply bool_decide_eq_true.
      rewrite <- Hb. by apply list_elem_of_fmap_2.
    + apply elem_of_dedup_first. unfold dependencyTokens.
      unfold flatTokens in Hdep.
      destruct (getDependenciesFrom (splitIntoLines A)) as [|c s]; [|done].
      apply list_elem_of_singleton in Hdep.
      apply getNameFrom_nonempty in Hb. done.
  - apply getInfoFor_dependents.
  - intros q stanza. rewrite list_elem_of_filter. unfold dependsOn. tauto.
Qed.

Lemma C2_reverse_dependency_witness :
  Some (lit "alpha") ∈ i_dependents (getInfoFor alpha_beta (lit "beta")) /\
  {| name := lit "beta"; found := true |}
    ∈ i_depends (getInfoFor alpha_beta (lit "alpha")).
Proof.
  destruct (C2_reverse_dependency alpha_beta alpha_stanza beta_stanza
              (lit "alpha") (lit "beta")) as (H1 & H2 & _);
    [by_compute | by_compute | reflexivity | reflexivity
    | by_compute | by_compute |].
  split; [exact H1 | apply H2; reflexivity].
Defined.

(** ** Last match wins, unknown names *)

(** C3. When the queried name is the Package value of several stanzas,
    the summary, the description and the dependency tokens are those of
    the last such stanza, and the scan goes through the whole file: the
    dependents come from the stanzas before and after that last match. *)
Theorem C3_last_match_wins (file q p : list N) (pre post : list (list N)) :
  getAsParagraphs file = pre ++ p :: post ->
  packageValue p = Some q ->
  Forall (fun s => packageValue s <> Some q) post ->
  i_summary (getInfoFor file q) = getSummaryFrom (splitIntoLines p) /\
  i_description (getInfoFor file q) = getDescriptionFrom (splitIntoLines p) /\
  dependenciesTemp (scan_all q file) = getDependenciesFrom (splitIntoLines p) /\
  map name (i_depends (getInfoFor file q)) =
    dedup_first (dependencyTokens (getDependenciesFrom (splitIntoLines p))) /\
  i_dependents (getInfoFor file q) =
    map packageValue (filter (dependsOn q) pre) ++
    map packageValue (filter (dependsOn q) post) /\
  allPackageNames (scan_all q file) = map packageValue (pre ++ p :: post).
Proof.
  intros Hfile Hp Hpost.
  pose proof (target_last q pre p post Hp Hpost) as Ht.
  pose proof (scan_target q (getAsParagraphs file) scan_init) as H.
  cbn zeta in H. rewrite Hfile, Ht in H. destruct H as (Hs & Hd & Hdep).
  split_and!.
  - by rewrite getInfoFor_summary, Hfile, Ht.
  - by rewrite getInfoFor_description, Hfile, Ht.
  - unfold scan_all. by rewrite Hfile.
  - rewrite getInfoFor_depends, Hfile, Ht. apply map_name_resolve.
  - rewrite getInfoFor_dependents, Hfile, filter_app, filter_cons_False.
    + by rewrite map_app.
    + unfold dependsOn. tauto.
  - unfold scan_all. by rewrite scan_names, Hfile.
Qed.

Lemma C3_last_match_wins_witness :
  i_summary (getInfoFor repeated_a (lit "a")) = Some (lit "second") /\
  i_description (getInfoFor repeated_a (lit "a")) = [] /\
  map name (i_depends (getInfoFor repeated_a (lit "a"))) = [] /\
  allPackageNames (scan_all (lit "a") repeated_a) =
    [Some (lit "a"); Some (lit "b"); Some (lit "a")].
Proof.
  destruct (C3_last_match_wins repeated_a (lit "a") a_last
              [a_first; b_only] [])
    as (H1 & H2 & _ & H3 & _ & H4);
    [reflexivity | reflexivity | by_compute |].
  rewrite H1, H2, H3, H4. split_and!; reflexivity.
Defined.

(** C4. A query for a name that no stanza bears returns, without an
    error, an empty summary, an empty description, no depends, and as
    dependents the names of the stanzas whose dependency tokens include
    the queried name. *)
Theorem C4_unknown_name (file q : list N) :
  Forall (fun s => packageValue s <> Some q) (getAsParagraphs file) ->
  getInfoFor file q =
  {| i_summary := Some []; i_description := []; i_depends := [];
     i_dependents :=
       map packageValue
           (filter (fun s => q ∈ flatTokens s) (getAsParagraphs file)) |}.
Proof.
  intros Hq. rewrite (info_eta (getInfoFor file q)).
  rewrite getInfoFor_summary, getInfoFor_description, getInfoFor_depends,
    getInfoFor_dependents, (target_None _ _ Hq).
  cbn [dedup_first map]. f_equal. f_equal.
  induction Hq as [|s l Hs _ IH]; [done|].
  rewrite !filter_cons, IH. unfold dependsOn.
  destruct (decide (q ∈ flatTokens s)).
  - by rewrite decide_True.
  - rewrite decide_False; tauto.
Qed.

Lemma C4_unknown_name_witness :
  getInfoFor alpha_beta (lit "gamma") =
  {| i_summary := Some []; i_description := []; i_depends := [];
     i_dependents := [Some (lit "alpha")] |}.
Proof.
  rewrite (C4_unknown_name alpha_beta (lit "gamma")); [reflexivity|].
  by_compute.
Defined.

(** ** The tokenizer *)

Lemma parseDependencyString_strip raw :
  exists v, strip_versions raw v /\
            parseDependencyString raw = filter (fun c => c <> ch ",") v.
Proof.
  exists (replace raw versionParser []). split.
  - apply (replace_go_version (length raw)). lia.
  - apply replace_go_commas.
Qed.

(** C5 fails as stated: the space left in front of a removed version
    constraint or comma meets the next one, and the split keeps the
    empty token between them. *)
Lemma C5_counterexample :
  [] ∈ split (lit " ") (parseDependencyString (lit "foo (>= 1.0) , bar")) /\
  map name (i_depends (getInfoFor spaced_comma (lit "a"))) =
    [lit "foo"; []; lit "bar"].
Proof. split; [by_compute | reflexivity]. Qed.

(** C5, amended. The dependency string is the raw value without its
    version constraints (a space, an opening parenthesis and everything
    up to the first closing parenthesis) and then without its commas; the
    token sequence cuts it at every single space, so that the tokens
    joined by single spaces give the string back and no token contains a
    space; adjacent spaces (and a leading or trailing one) produce empty
    tokens, which are kept; only a wholly empty string gives no token to
    the depends result. *)
Theorem C5_tokenizer (raw : list N) :
  let s := parseDependencyString raw in
  let tokens := split (lit " ") s in
  (exists v, strip_versions raw v /\ s = filter (fun c => c <> ch ",") v /\
             forall v', strip_versions raw v' -> v' = v) /\
  join_with (ch " ") tokens = s /\
  Forall (fun t => ch " " ∉ t) tokens /\
  length tokens = S (count_char (ch " ") s) /\
  (forall l, l <> [] -> Forall (fun t => ch " " ∉ t) l ->
             join_with (ch " ") l = s -> l = tokens) /\
  (forall a b, s = a ++ ch " " :: ch " " :: b -> [] ∈ tokens) /\
  (forall a, s = a ++ [ch " "] -> [] ∈ tokens) /\
  (forall names,
     map name (findDependenciesFor s names) =
     dedup_first (if truthy s then tokens else [])).
Proof.
  cbn zeta. change (lit " ") with [ch " "]. rewrite split_char.
  split_and!.
  - destruct (parseDependencyString_strip raw) as (v & Hv & E).
    exists v. split_and!; [done..|].
    intros v' Hv'. by apply (strip_versions_functional raw).
  - apply join_split_on.
  - apply split_on_no_sep.
  - apply length_split_on.
  - intros l Hl Hsep <-. by rewrite split_on_join.
  - intros a b ->. apply split_on_adjacent.
  - intros a ->. apply split_on_trailing.
  - intros names. rewrite findDependenciesFor_resolve, map_name_resolve.
    unfold dependencyTokens. change (lit " ") with [ch " "].
    by rewrite split_char.
Qed.

(** ** Field extraction *)

Lemma description_continuations cs acc :
  forallb isContinuation cs = true ->
  fold_left description_step cs (acc, true) = (acc ++ cs, true).
Proof.
  revert acc; induction cs as [|l cs IH]; intros acc.
  - by rewrite app_nil_r.
  - cbn [forallb fold_left]. rewrite andb_true_iff. intros [Hl Hcs].
    unfold description_step at 2. rewrite matches_startsWithWhitespace.
    unfold isContinuation in Hl. rewrite Hl. cbn [andb].
    rewrite IH by done. by rewrite <- app_assoc.
Qed.

(** C6 fails as stated: each continuation line is captured with its
    leading space, which therefore separates it from the line before. *)
Lemma C6_counterexample :
  getDescriptionFrom short_description <> lit "more textcontinued".
Proof. by_compute. Qed.

(** C6, amended. For a stanza made of a Description line and of lines
    that each begin with a space (or a tab, or a bar), the summary is the
    value of the Description line and the description is the
    concatenation of the continuation lines as they are, leading
    whitespace included and nothing inserted, then trimmed; the lines
    ["Description: short"], [" more text"], [" continued"] give the
    summary ["short"] and the description ["more text continued"]. *)
Theorem C6_description_continuation (ws v : list N) (c : N)
    (cs : list (list N)) :
  forallb blank ws = true -> blank c = false ->
  forallb dot (c :: v) = true ->
  forallb isContinuation cs = true ->
  getSummaryFrom ((lit "Description:" ++ ws ++ c :: v) :: cs) = Some (c :: v) /\
  getDescriptionFrom ((lit "Description:" ++ ws ++ c :: v) :: cs) =
    trim (concat cs).
Proof.
  intros Hws Hc Hv Hcs. split.
  - by rewrite getSummaryFrom_cons, field_capture_value.
  - unfold getDescriptionFrom. cbn [fold_left].
    unfold description_step at 2. rewrite andb_false_r.
    rewrite descriptionSummaryParser_field, matches_field.
    rewrite field_capture_value by done.
    rewrite bool_decide_eq_true_2 by eauto.
    by rewrite description_continuations.
Qed.

Lemma C6_description_continuation_witness :
  getSummaryFrom short_description = Some (lit "short") /\
  getDescriptionFrom short_description = lit "more text continued".
Proof.
  destruct (C6_description_continuation (lit " ") (lit "hort") (ch "s")
              [lit " more text"; lit " continued"]) as [H1 H2];
    [reflexivity | reflexivity | reflexivity | reflexivity |].
  split; [exact H1 | exact (eq_trans H2 eq_refl)].
Defined.

(** C7, on the code: the group of a field pattern is greedy and takes
    the trailing blanks with it, so the extracted value keeps them; the
    leading blanks are dropped and the first matching line is the one
    used. *)
Theorem C7_trailing_blanks_kept (ws v t : list N) (c : N)
    (rest : list (list N)) :
  forallb blank ws = true -> blank c = false ->
  forallb dot (c :: v) = true -> forallb blank t = true ->
  getNameFrom ((lit "Package:" ++ ws ++ c :: v ++ t) :: rest) =
    Some (c :: v ++ t).
Proof.
  intros Hws Hc Hv Ht. rewrite getNameFrom_cons.
  rewrite (field_capture_value _ ws c (v ++ t)); [done..|].
  cbn [forallb] in *. apply andb_true_iff in Hv as [-> Hv].
  by rewrite forallb_app, Hv, (forallb_blank_dot _ Ht).
Qed.

Lemma C7_trailing_blanks_kept_witness :
  packageValue trailing_space = Some (lit "foo ") /\
  getPackageNames trailing_space = [Some (lit "foo ")] /\
  i_summary (getInfoFor trailing_space (lit "foo")) = Some [].
Proof.
  split; [|split; reflexivity].
  apply (C7_trailing_blanks_kept (lit " ") (lit "oo") (lit " ") (ch "f") []);
    reflexivity.
Defined.

(** ** The name list *)

(** C8. The name-list query returns one entry for each line of the file
    that matches the Package pattern: as many entries as matching lines,
    each the captured value of its line, in file order, repetitions
    included. *)
Theorem C8_name_list (file : list N) :
  let lines := splitIntoLines file in
  getPackageNames file =
    omap (fun line => m_group1 <$> str_match line packageNameParser) lines /\
  getPackageNames file =
    map Some (omap (field_capture (lit "Package:")) lines) /\
  length (getPackageNames file) =
    length (filter (fun line => is_Some (str_match line packageNameParser))
                   lines).
Proof.
  cbn zeta. rewrite getPackageNames_omap.
  induction (splitIntoLines file) as [|line l (IH1 & IH2 & IH3)]; [done|].
  cbn [omap list_omap]. rewrite filter_cons.
  rewrite packageNameParser_field, str_match_field in *.
  destruct (field_capture _ line) as [v|]; cbn [fmap option_fmap option_map].
  - rewrite decide_True by eauto. cbn [map length].
    rewrite <- IH2, <- IH3. done.
  - rewrite decide_False by (by intros [? ?]). done.
Qed.

(** ** The bar among the blanks *)

(** C9. The class in front of the value of a field pattern holds the
    space, the tab and the bar, so bars between the colon and the value
    are dropped like spaces from the value of a Package, a Description
    or a Depends line. *)
Theorem C9_pipe_is_blank (ws v : list N) (c : N) (rest : list (list N)) :
  forallb blank ws = true -> blank c = false ->
  forallb dot (c :: v) = true ->
  (forall x, blank x = true <-> x = ch " " \/ x = ch "|" \/ x = ch "009") /\
  m_group1 <$> str_match (lit "Package:" ++ ws ++ c :: v) packageNameParser
    = Some (Some (c :: v)) /\
  m_group1 <$> str_match (lit "Description:" ++ ws ++ c :: v)
                 descriptionSummaryParser
    = Some (Some (c :: v)) /\
  m_group1 <$> str_match (lit "Depends:" ++ ws ++ c :: v) dependencyParser
    = Some (Some (c :: v)) /\
  getNameFrom ((lit "Package:" ++ ws ++ c :: v) :: rest) = Some (c :: v) /\
  getSummaryFrom ((lit "Description:" ++ ws ++ c :: v) :: rest)
    = Some (c :: v) /\
  getDependenciesFrom ((lit "Depends:" ++ ws ++ c :: v) :: rest)
    = parseDependencyString (c :: v).
Proof.
  intros Hws Hc Hv. split_and!.
  - apply blank_iff.
  - by rewrite packageNameParser_field, str_match_field, field_capture_value.
  - by rewrite descriptionSummaryParser_field, str_match_field,
      field_capture_value.
  - by rewrite dependencyParser_field, str_match_field, field_capture_value.
  - by rewrite getNameFrom_cons, field_capture_value.
  - by rewrite getSummaryFrom_cons, field_capture_value.
  - by rewrite getDependenciesFrom_cons, field_capture_value.
Qed.

Lemma C9_pipe_is_blank_witness :
  m_group1 <$> str_match (lit "Package:|foo") packageNameParser
    = Some (Some (lit "foo")) /\
  m_group1 <$> str_match (lit "Description:|foo") descriptionSummaryParser
    = Some (Some (lit "foo")) /\
  m_group1 <$> str_match (lit "Depends:|foo") dependencyParser
    = Some (Some (lit "foo")).
Proof.
  destruct (C9_pipe_is_blank (lit "|") (lit "oo") (ch "f") [])
    as (_ & H1 & H2 & H3 & _); [reflexivity | reflexivity | reflexivity |].
  split_and!; [exact H1 | exact H2 | exact H3].
Defined.

(** ** Stanzas without a name *)

(** C10. A stanza without a Package line whose Depends tokens include
    the queried name puts its name, which is [undefined], in the
    dependents of the query, and also in the list of all names that the
    resolution looks names up in. *)
Theorem C10_nameless_stanza (file q p : list N) :
  p ∈ getAsParagraphs file ->
  packageValue p = None ->
  q ∈ flatTokens p ->
  None ∈ i_dependents (getInfoFor file q) /\
  None ∈ allPackageNames (scan_all q file).
Proof.
  intros Hp Hn Hq. split.
  - rewrite getInfoFor_dependents, <- Hn. apply list_elem_of_fmap_2.
    apply list_elem_of_filter. split; [|done]. split; [|done].
    by rewrite Hn.
  - unfold scan_all. rewrite scan_names. cbn [scan_init allPackageNames app].
    rewrite <- Hn. by apply list_elem_of_fmap_2.
Qed.

Lemma C10_nameless_stanza_witness :
  None ∈ i_dependents (getInfoFor nameless (lit "beta")) /\
  None ∈ allPackageNames (scan_all (lit "beta") nameless).
Proof.
  apply (C10_nameless_stanza nameless (lit "beta") nameless_stanza);
    [by_compute | reflexivity | by_compute].
Defined.

(** ** The scenario of the specification *)

Example tokens_versions_and_bar :
  dependencyTokens (parseDependencyString (lit "foo (>= 1.0), bar | baz")) =
  [lit "foo"; lit "bar"; lit "|"; lit "baz"].
Proof. reflexivity. Qed.

Example tokens_commas :
  dependencyTokens (parseDependencyString (lit "a, b (= 2), c")) =
  [lit "a"; lit "b"; lit "c"].
Proof. reflexivity. Qed.

Example names_alpha_beta :
  getPackageNames alpha_beta = [Some (lit "alpha"); Some (lit "beta")].
Proof. reflexivity. Qed.

Example query_alpha :
  getInfoFor alpha_beta (lit "alpha") =
  {| i_summary := Some (lit "short alpha");
     i_description := lit "long alpha text";
     i_depends := [ {| name := lit "beta"; found := true |};
                    {| name := lit "gamma"; found := false |} ];
     i_dependents := [] |}.
Proof. reflexivity. Qed.

Example query_beta :
  getInfoFor alpha_beta (lit "beta") =
  {| i_summary := Some (lit "short beta");
     i_description := [];
     i_depends := [];
     i_dependents := [Some (lit "alpha")] |}.
Proof. reflexivity. Qed.

(** ** Stanzas and lines *)

Lemma split_go_cons sep k cur s : exists t ts, split_go sep k cur s = t :: ts.
Proof.
  revert k cur; induction s as [|c s IH]; intros k cur; [by simpl; eauto|].
  cbn [split_go]. destruct k as [|k]; [|apply IH].
  destruct (startsWith sep (c :: s)); [eauto|apply IH].
Qed.

Lemma split_go_skip sep pre rest cur :
  split_go sep (length pre) cur (pre ++ rest) = split_go sep 0 cur rest.
Proof. induction pre as [|c pre IH]; [done|]. exact IH. Qed.

Lemma join_sep_cons sep t l :
  l <> [] -> join_sep sep (t :: l) = t ++ sep ++ join_sep sep l.
Proof. by destruct l. Qed.

(** What [split_go] does at a separator. *)
Lemma split_go_at_sep sep cur rest :
  sep <> [] ->
  split_go sep 0 cur (sep ++ rest) = cur :: split_go sep 0 [] rest.
Proof.
  destruct sep as [|a sep']; [done|]. intros _.
  change ((a :: sep') ++ rest) with (a :: (sep' ++ rest)).
  cbn [split_go].
  change (a :: (sep' ++ rest)) with ((a :: sep') ++ rest).
  rewrite startsWith_app. cbn [length Nat.sub]. rewrite Nat.sub_0_r.
  by rewrite split_go_skip.
Qed.

Lemma length_sep_pos (sep : list N) : sep <> [] -> 0 < length sep.
Proof. destruct sep; [done|simpl; lia]. Qed.

Lemma split_go_join sep n : sep <> [] -> forall s cur,
  length s <= n -> join_sep sep (split_go sep 0 cur s) = cur ++ s.
Proof.
  intros Hsep. pose proof (length_sep_pos sep Hsep) as Hpos.
  induction n as [|n IH]; intros s cur Hn.
  - destruct s; [|simpl in Hn; lia]. simpl. by rewrite app_nil_r.
  - destruct s as [|c s]; [simpl; by rewrite app_nil_r|].
    destruct (startsWith sep (c :: s)) eqn:Hs.
    + apply startsWith_inv in Hs. rewrite Hs, split_go_at_sep by done.
      destruct (split_go_cons sep 0 [] (drop (length sep) (c :: s)))
        as (t & ts & Et).
      rewrite join_sep_cons by (rewrite Et; done).
      rewrite IH; [done|]. rewrite length_drop. simpl in Hn |- *. lia.
    + cbn [split_go]. rewrite Hs, IH by (simpl in Hn; lia).
      by rewrite <- app_assoc.
Qed.

Lemma join_split sep s : sep <> [] -> join_sep sep (split sep s) = s.
Proof.
  intros Hsep. unfold split. destruct sep as [|a sep']; [done|].
  by rewrite (split_go_join _ (length s)).
Qed.

(** No piece holds the separator: a separator that starts inside the
    piece under construction would have been cut at. *)
Lemma split_go_no_sep sep n : sep <> [] -> forall s cur,
  length s <= n ->
  (forall a b, cur ++ s = a ++ sep ++ b -> length cur <= length a) ->
  Forall (fun t => ~ occurs_in sep t) (split_go sep 0 cur s).
Proof.
  intros Hsep. pose proof (length_sep_pos sep Hsep) as Hpos.
  assert (Hend : forall cur,
    (forall a b, cur ++ [] = a ++ sep ++ b -> length cur <= length a) ->
    ~ occurs_in sep cur).
  { intros cur Hcur (a & b & E). specialize (Hcur a b).
    rewrite app_nil_r in Hcur. specialize (Hcur E).
    rewrite E, !length_app in Hcur. lia. }
  induction n as [|n IH]; intros s cur Hn Hcur.
  - destruct s; [|simpl in Hn; lia]. repeat constructor. by apply Hend.
  - destruct s as [|c s]; [repeat constructor; by apply Hend|].
    destruct (startsWith sep (c :: s)) eqn:Hs.
    + apply startsWith_inv in Hs. rewrite Hs, split_go_at_sep by done.
      constructor.
      * intros (a & b & E).
        specialize (Hcur a (b ++ c :: s)).
        rewrite E, <- !app_assoc in Hcur. specialize (Hcur eq_refl).
        rewrite !length_app in Hcur. lia.
      * apply IH; [rewrite length_drop; simpl in Hn |- *; lia|].
        intros; simpl; lia.
    + cbn [split_go]. rewrite Hs. apply IH; [simpl in Hn; lia|].
      intros a b E. rewrite length_app. cbn [length].
      rewrite <- app_assoc in E. cbn [app] in E.
      pose proof (Hcur a b E) as Hle.
      destruct (decide (length a = length cur)) as [Hl|]; [|lia].
      exfalso. apply app_inj_1 in E as [_ E]; [|done].
      rewrite E, startsWith_app in Hs. done.
Qed.

Lemma split_no_sep sep s :
  sep <> [] -> Forall (fun t => ~ occurs_in sep t) (split sep s).
Proof.
  intros Hsep. unfold split. destruct sep as [|a sep']; [done|].
  apply (split_go_no_sep _ (length s)); [done..|]. intros; simpl; lia.
Qed.

Lemma split_nonempty sep s : sep <> [] -> split sep s <> [].
Proof.
  intros Hsep. unfold split. destruct sep as [|a sep']; [done|].
  by destruct (split_go_cons (a :: sep') 0 [] s) as (t & ts & ->).
Qed.

Lemma splitIntoLines_split_on s : splitIntoLines s = split_on (ch "010") s.
Proof. apply split_char. Qed.

(** The lines of a stanza are lines of the file. *)
Lemma lines_of_join ps p line :
  p ∈ ps -> line ∈ split_on (ch "010") p ->
  line ∈ split_on (ch "010") (join_sep blank_line ps).
Proof.
  intros Hp Hl. induction ps as [|t ps IH]; [by apply elem_of_nil in Hp|].
  destruct ps as [|u ps].
  - apply list_elem_of_singleton in Hp as ->. done.
  - change (join_sep blank_line (t :: u :: ps))
      with (t ++ ch "010" :: ([ch "010"] ++ join_sep blank_line (u :: ps))).
    rewrite split_on_app. apply elem_of_app.
    apply elem_of_cons in Hp as [->|Hp]; [by left|right].
    cbn [app split_on]. rewrite N.eqb_refl. right. by apply IH.
Qed.

Lemma lines_of_stanza file p line :
  p ∈ getAsParagraphs file -> line ∈ splitIntoLines p ->
  line ∈ splitIntoLines file.
Proof.
  unfold getAsParagraphs, splitIntoParagraphs. intros Hp Hl.
  rewrite splitIntoLines_split_on in *.
  rewrite <- (join_split blank_line file) at 1 by done.
  by apply (lines_of_join _ p).
Qed.

(** X1. Joining the stanzas of a text with blank lines, or its lines
    with line feeds, gives the text back: splitting loses nothing. *)
Theorem X1_split_round_trip (textData : list N) :
  join_sep blank_line (splitIntoParagraphs textData) = textData /\
  join_sep line_feed (splitIntoLines textData) = textData /\
  splitIntoParagraphs textData <> [] /\ splitIntoLines textData <> [].
Proof.
  split_and!.
  - by apply join_split.
  - by apply join_split.
  - by apply split_nonempty.
  - by apply split_nonempty.
Qed.

(** X2. No stanza contains a blank line (two line feeds in a row), no
    line contains a line feed, and a text has one line more than it has
    line feeds. *)
Theorem X2_pieces_free_of_separator (textData : list N) :
  Forall (fun stanza => ~ occurs_in blank_line stanza)
         (splitIntoParagraphs textData) /\
  Forall (fun line => ch "010" ∉ line) (splitIntoLines textData) /\
  length (splitIntoLines textData) = S (count_char (ch "010") textData).
Proof.
  split_and!.
  - by apply split_no_sep.
  - rewrite splitIntoLines_split_on. apply split_on_no_sep.
  - rewrite splitIntoLines_split_on. apply length_split_on.
Qed.

(** ** Field lines: what matches and what is captured *)

Lemma forallb_false_elem (p : N -> bool) l c :
  c ∈ l -> p c = false -> forallb p l = false.
Proof.
  intros Hc Hp. destruct (forallb p l) eqn:E; [|done].
  rewrite forallb_forall in E. rewrite <- Hp. symmetry. apply E.
  by apply list_elem_of_In.
Qed.

Lemma field_capture_line_terminator t line c :
  forallb dot t = true -> c ∈ line -> isLineTerminator c = true ->
  field_capture t line = None.
Proof.
  intros Ht Hc Hlt. unfold field_capture.
  destruct (startsWith t line) eqn:Hs; [|done].
  apply startsWith_inv in Hs. rewrite Hs in Hc.
  apply elem_of_app in Hc as [Hc|Hc].
  - rewrite forallb_forall in Ht. apply list_elem_of_In, Ht in Hc.
    unfold dot in Hc. by rewrite Hlt in Hc.
  - rewrite (forallb_false_elem dot _ c Hc), andb_false_r; [done|].
    unfold dot. by rewrite Hlt.
Qed.

Lemma field_capture_not_prefixed t line :
  startsWith t line = false -> field_capture t line = None.
Proof. unfold field_capture. by intros ->. Qed.

Lemma fieldValue_blanks ws w :
  forallb blank ws = true -> fieldValue (ws ++ [w]) = [w].
Proof.
  induction ws as [|c ws IH]; [done|]. cbn [forallb].
  rewrite andb_true_iff. intros [Hc Hws].
  cbn [app]. rewrite fieldValue_blank; [auto|done|by destruct ws].
Qed.

Lemma fieldValue_decomp r :
  exists ws, r = ws ++ fieldValue r /\ forallb blank ws = true /\
             (forall c t, fieldValue r = c :: t -> blank c = true -> t = []).
Proof.
  induction r as [|c r (ws & E & Hws & Hone)].
  - exists []. split_and!; done.
  - destruct r as [|d r].
    + exists []. split_and!; [done..|]. by intros ? ? [= _ <-].
    + destruct (blank c) eqn:Hc.
      * exists (c :: ws). rewrite (fieldValue_blank c (d :: r)) by done.
        split_and!; [by rewrite E at 1|by simpl; rewrite Hc|done].
      * exists []. rewrite (fieldValue_keep c (d :: r)) by done.
        split_and!; [done..|]. intros ? ? [= <- _]. congruence.
Qed.

Lemma field_capture_Some t line v :
  field_capture t line = Some v ->
  exists ws, line = t ++ ws ++ v /\ forallb blank ws = true /\
             v <> [] /\ forallb dot v = true /\
             (forall c u, v = c :: u -> blank c = true -> u = []).
Proof.
  intros H. pose proof (field_capture_nonempty _ _ _ H) as Hv.
  unfold field_capture in H. destruct (startsWith t line) eqn:Hs; [|done].
  apply startsWith_inv in Hs.
  destruct (truthy _ && forallb dot _) eqn:Hd; [|done].
  injection H as <-. apply andb_true_iff in Hd as [_ Hd].
  destruct (fieldValue_decomp (drop (length t) line)) as (ws & E & Hws & H1).
  exists ws. split_and!; [by rewrite <- E|done..| |done].
  rewrite E, forallb_app in Hd. by apply andb_true_iff in Hd as [_ ?].
Qed.

(** The first line that has a value after the field name decides. *)
Lemma getNameFrom_Some lines v :
  getNameFrom lines = Some v ->
  exists line, line ∈ lines /\ field_capture (lit "Package:") line = Some v.
Proof.
  induction lines as [|line lines IH]; [done|]. rewrite getNameFrom_cons.
  destruct (field_capture _ line) as [u|] eqn:E.
  - intros [= <-]. exists line. split; [by left|done].
  - intros (l & Hl & Hc)%IH. exists l. split; [by right|done].
Qed.

Lemma getPackageNames_captures file :
  getPackageNames file =
  map Some (omap (field_capture (lit "Package:")) (splitIntoLines file)).
Proof.
  rewrite getPackageNames_omap.
  induction (splitIntoLines file) as [|line l IH]; [done|].
  cbn [omap list_omap]. rewrite packageNameParser_field, str_match_field in *.
  destruct (field_capture _ line); cbn [fmap option_fmap option_map map];
    by rewrite IH.
Qed.

(** X3. A line that holds a line terminator (a carriage return, as in a
    file with CRLF line ends, or U+2028, U+2029) matches none of the
    three field patterns: the dot does not cross it and [$] only matches
    at the very end. *)
Theorem X3_line_terminator_blocks_fields (line : list N) (c : N) :
  c ∈ line -> isLineTerminator c = true ->
  str_match line packageNameParser = None /\
  str_match line descriptionSummaryParser = None /\
  str_match line dependencyParser = None.
Proof.
  intros Hc Hlt.
  rewrite packageNameParser_field, descriptionSummaryParser_field,
    dependencyParser_field, !str_match_field.
  by rewrite !(field_capture_line_terminator _ line c).
Qed.

Lemma X3_line_terminator_blocks_fields_witness :
  str_match crlf_line packageNameParser = None /\
  getPackageNames crlf_line = [].
Proof.
  split; [|reflexivity].
  apply (X3_line_terminator_blocks_fields crlf_line 13%N);
    [by_compute | reflexivity].
Defined.

(** X4. A Package line with nothing after the colon is passed over, and
    one with only blanks after the colon gives a name made of its last
    blank: the group needs one character and the blanks before it give
    one back. *)
Theorem X4_empty_and_blank_values (ws : list N) (w : N)
    (rest : list (list N)) :
  forallb blank (ws ++ [w]) = true ->
  getNameFrom ((lit "Package:" ++ ws ++ [w]) :: rest) = Some [w] /\
  getNameFrom (lit "Package:" :: rest) = getNameFrom rest.
Proof.
  intros H. rewrite forallb_app in H. apply andb_true_iff in H as [Hws Hw].
  cbn [forallb] in Hw. rewrite andb_true_r in Hw.
  split; [|by rewrite getNameFrom_cons].
  rewrite getNameFrom_cons. unfold field_capture.
  rewrite startsWith_app, drop_app_length.
  assert (truthy (ws ++ [w]) = true) as -> by by destruct ws.
  rewrite forallb_app, (forallb_blank_dot _ Hws). cbn [forallb andb].
  by rewrite (blank_dot _ Hw), fieldValue_blanks.
Qed.

Lemma X4_empty_and_blank_values_witness :
  getNameFrom [lit "Package:  "; lit "Package: foo"] = Some (lit " ") /\
  getNameFrom [lit "Package:"; lit "Package: foo"] = Some (lit "foo").
Proof.
  destruct (X4_empty_and_blank_values (lit " ") (ch " ") [lit "Package: foo"])
    as [H1 H2]; [reflexivity|].
  split; [exact H1 | exact (eq_trans H2 eq_refl)].
Defined.

(** X5. A name that [getNameFrom] returns is never empty and holds no
    line terminator; it is the end of one of the lines, after
    [Package:] and a run of blanks, and it starts with a blank only when
    it is that single character. *)
Theorem X5_name_shape (lines : list (list N)) (v : list N) :
  getNameFrom lines = Some v ->
  v <> [] /\ forallb dot v = true /\
  (exists line ws,
     line ∈ lines /\ line = lit "Package:" ++ ws ++ v /\
     forallb blank ws = true) /\
  (forall c u, v = c :: u -> blank c = true -> u = []).
Proof.
  intros (line & Hl & Hc)%getNameFrom_Some.
  destruct (field_capture_Some _ _ _ Hc) as (ws & E & Hws & Hv & Hd & H1).
  split_and!; [done..| |done]. by exists line, ws.
Qed.

Lemma X5_name_shape_witness :
  lit "alpha" <> [] /\ forallb dot (lit "alpha") = true.
Proof.
  destruct (X5_name_shape (splitIntoLines alpha_stanza) (lit "alpha"))
    as (H1 & H2 & _); [reflexivity|].
  split; [exact H1 | exact H2].
Defined.

(** X6. Every name that a stanza bears, and that a detail query can
    therefore ask for, is in the list of names: the two queries agree on
    what the file holds. *)
Theorem X6_stanza_names_are_listed (file stanza v : list N) :
  stanza ∈ getAsParagraphs file ->
  getNameFrom (splitIntoLines stanza) = Some v ->
  Some v ∈ getPackageNames file.
Proof.
  intros Hs (line & Hl & Hc)%getNameFrom_Some.
  rewrite getPackageNames_captures. apply list_elem_of_fmap_2.
  apply list_elem_of_omap. exists line. split; [|done].
  by apply (lines_of_stanza file stanza).
Qed.

Lemma X6_stanza_names_are_listed_witness :
  Some (lit "beta") ∈ getPackageNames alpha_beta.
Proof.
  apply (X6_stanza_names_are_listed alpha_beta beta_stanza (lit "beta"));
    [by_compute | reflexivity].
Defined.

(** ** Descriptions and summaries *)

Lemma dropWhile_head p s c t : dropWhile p s = c :: t -> p c = false.
Proof.
  induction s as [|x s IH]; [done|]. simpl.
  destruct (p x) eqn:Hx; [done|]. by intros [= <- _].
Qed.

Lemma dropWhile_suffix p s : exists a, s = a ++ dropWhile p s.
Proof.
  induction s as [|x s (a & IH)]; [by exists []|]. simpl.
  destruct (p x); [|by exists []]. exists (x :: a). by rewrite IH at 1.
Qed.

Lemma trim_ends s c :
  head (trim s) = Some c \/ last (trim s) = Some c -> isTrimmed c = false.
Proof.
  unfold trim, trimEnd, trimStart.
  set (t := dropWhile isTrimmed s).
  destruct (dropWhile isTrimmed (rev t)) as [|d u] eqn:Eu; [by intros [|]|].
  pose proof (dropWhile_head _ _ _ _ Eu) as Hd.
  destruct (dropWhile_suffix isTrimmed (rev t)) as (a & Ea).
  rewrite Eu in Ea. apply (f_equal (@rev N)) in Ea.
  rewrite rev_involutive, rev_app_distr in Ea.
  cbn [rev]. intros [H|H].
  - destruct (rev u ++ [d]) as [|e w] eqn:Ew; [done|].
    injection H as ->. cbn [rev] in Ea. rewrite Ew in Ea.
    by apply (dropWhile_head isTrimmed s c (w ++ rev a)).
  - rewrite last_snoc in H. by injection H as <-.
Qed.

Lemma description_idle l acc :
  Forall (fun x => str_match x descriptionSummaryParser = None) l ->
  fold_left description_step l (acc, false) = (acc, false).
Proof.
  induction 1 as [|x l Hx _ IH]; [done|]. cbn [fold_left].
  unfold description_step at 2. rewrite andb_false_r.
  unfold matches. by rewrite Hx.
Qed.

Lemma getSummaryFrom_None lines :
  Forall (fun x => str_match x descriptionSummaryParser = None) lines ->
  getSummaryFrom lines = None.
Proof. induction 1 as [|x l Hx _ IH]; [done|]. simpl. by rewrite Hx. Qed.

(** X7. A description never begins or ends with a white space or a line
    terminator, whatever the lines it was collected from. *)
Theorem X7_description_is_trimmed (lines : list (list N)) (c : N) :
  head (getDescriptionFrom lines) = Some c \/
  last (getDescriptionFrom lines) = Some c ->
  isTrimmed c = false.
Proof. apply trim_ends. Qed.

Lemma X7_description_is_trimmed_witness : isTrimmed (ch "m") = false.
Proof.
  apply (X7_description_is_trimmed short_description (ch "m")).
  left. reflexivity.
Defined.

(** X8. For a package of the file whose stanza has no Description line
    the detail query gives an empty description and no summary at all
    ([undefined], where an unknown name gets the empty string). *)
Theorem X8_no_description_line (file q p : list N) :
  target q (getAsParagraphs file) = Some p ->
  Forall (fun x => str_match x descriptionSummaryParser = None)
         (splitIntoLines p) ->
  i_summary (getInfoFor file q) = None /\
  i_description (getInfoFor file q) = [].
Proof.
  intros Ht Hp. rewrite getInfoFor_summary, getInfoFor_description, Ht.
  split; [by apply getSummaryFrom_None|].
  unfold getDescriptionFrom. by rewrite description_idle.
Qed.

Lemma X8_no_description_line_witness :
  i_summary (getInfoFor bare_file (lit "bare")) = None /\
  i_description (getInfoFor bare_file (lit "bare")) = [].
Proof.
  apply (X8_no_description_line bare_file (lit "bare") bare_stanza);
    [reflexivity | by_compute].
Defined.

(** X9. In a stanza with one Description line, the description is made
    of the lines that follow it and begin with a blank, up to the first
    line that does not: the lines before the field and those after that
    first other line are left out, even when they begin with a blank. *)
Theorem X9_description_of_a_stanza (pre cs post : list (list N))
    (header : list N) :
  Forall (fun x => str_match x descriptionSummaryParser = None) pre ->
  is_field_line descriptionSummaryParser header ->
  forallb isContinuation cs = true ->
  (forall l, head post = Some l -> isContinuation l = false) ->
  Forall (fun x => str_match x descriptionSummaryParser = None) post ->
  getDescriptionFrom (pre ++ header :: cs ++ post) = trim (concat cs).
Proof.
  intros Hpre [m Hh] Hcs Hstop Hpost. unfold getDescriptionFrom.
  rewrite fold_left_app, description_idle by done. cbn [fold_left].
  unfold description_step at 2. rewrite andb_false_r.
  unfold matches at 1. rewrite Hh.
  rewrite fold_left_app, description_continuations by done. cbn [app].
  destruct post as [|stop post]; [done|].
  apply Forall_cons in Hpost as [Hs Hpost].
  cbn [fold_left]. unfold description_step at 2.
  rewrite matches_startsWithWhitespace.
  specialize (Hstop stop eq_refl). unfold isContinuation in Hstop.
  rewrite Hstop. cbn [andb]. unfold matches. rewrite Hs.
  by rewrite description_idle.
Qed.

Lemma X9_description_of_a_stanza_witness :
  getDescriptionFrom gamma_stanza = lit "first second".
Proof.
  refine (eq_trans
            (X9_description_of_a_stanza [lit "Package: gamma"]
               [lit " first"; lit " second"]
               [lit "Depends: alpha"; lit " not a description"]
               (lit "Description: short gamma") _ _ _ _ _) eq_refl);
    [by_compute | by_compute | reflexivity
    | intros l [= <-]; reflexivity | by_compute].
Defined.

(** ** Dependencies *)

Lemma getDependenciesFrom_None lines :
  Forall (fun x => str_match x dependencyParser = None) lines ->
  getDependenciesFrom lines = [].
Proof. induction 1 as [|x l Hx _ IH]; [done|]. simpl. by rewrite Hx. Qed.

Lemma not_prefixed_no_match t line :
  startsWith t line = false -> str_match line (field_regex t) = None.
Proof. intros H. by rewrite str_match_field, field_capture_not_prefixed. Qed.

Lemma strip_versions_sublist s v : strip_versions s v -> v `sublist_of` s.
Proof.
  induction 1 as [|body rest out _ _ IH|c s out _ _ IH].
  - constructor.
  - apply sublist_inserts_l.
    change (ch ")" :: rest) with ([ch ")"] ++ rest).
    by do 2 apply sublist_inserts_l.
  - by apply sublist_skip.
Qed.

Lemma strip_versions_unclosed s : ch ")" ∉ s -> strip_versions s s.
Proof.
  induction s as [|c s IH]; [constructor|]. intros Hn.
  apply sv_keep.
  - intros (body & rest & E & _). apply Hn. rewrite E.
    rewrite !elem_of_app. right. right. by left.
  - apply IH. intros H. apply Hn. by right.
Qed.

Lemma target_Some q stanzas p :
  target q stanzas = Some p -> p ∈ stanzas /\ packageValue p = Some q.
Proof.
  unfold target. intros H%last_Some_elem_of.
  apply list_elem_of_filter in H. tauto.
Qed.

Lemma target_is_Some q stanzas p :
  p ∈ stanzas -> packageValue p = Some q ->
  exists p', target q stanzas = Some p'.
Proof.
  intros Hp Hq. unfold target.
  destruct (last _) as [p'|] eqn:E; [eauto|].
  apply last_None in E.
  assert (p ∈ filter (fun p => packageValue p = Some q) stanzas) as H
    by by apply list_elem_of_filter.
  rewrite E in H. by apply elem_of_nil in H.
Qed.

Lemma dependencyTokens_flat s t :
  t ∈ dependencyTokens s -> t ∈ split (lit " ") s.
Proof. unfold dependencyTokens. destruct (truthy s); [done|]. by intros ?%elem_of_nil. Qed.

(** X10. A stanza without a Depends line has the empty dependency
    string: it resolves to no dependency at all, and it counts as
    depending on the empty name only, so on no name the server can be
    asked for. *)
Theorem X10_no_depends_line (q : list N) (lines : list (list N)) :
  Forall (fun x => str_match x dependencyParser = None) lines ->
  getDependenciesFrom lines = [] /\
  (forall names, findDependenciesFor (getDependenciesFrom lines) names = []) /\
  (isDependentOn q lines = true <-> q = []).
Proof.
  intros H. unfold isDependentOn. rewrite (getDependenciesFrom_None _ H).
  split_and!; [done..|]. unfold includes.
  rewrite bool_decide_eq_true.
  change (split (lit " ") []) with [@nil N].
  by rewrite list_elem_of_singleton.
Qed.

Lemma X10_no_depends_line_witness :
  getDependenciesFrom (splitIntoLines bare_stanza) = [] /\
  (isDependentOn (lit "bare") (splitIntoLines bare_stanza) = true <->
   lit "bare" = []).
Proof.
  destruct (X10_no_depends_line (lit "bare") (splitIntoLines bare_stanza))
    as (H1 & _ & H2); [by_compute|].
  split; [exact H1 | exact H2].
Defined.

(** X11. Each field is read from the first line that begins with its
    name: the lines before it that begin with something else (a
    [Pre-Depends:] line does not begin with [Depends:]) and all the
    lines after it, further lines of the same field included, do not
    count. *)
Theorem X11_first_field_line (pre post : list (list N)) (ws v : list N)
    (c : N) :
  forallb blank ws = true -> blank c = false ->
  forallb dot (c :: v) = true ->
  (Forall (fun x => startsWith (lit "Package:") x = false) pre ->
   getNameFrom (pre ++ (lit "Package:" ++ ws ++ c :: v) :: post)
     = Some (c :: v)) /\
  (Forall (fun x => startsWith (lit "Description:") x = false) pre ->
   getSummaryFrom (pre ++ (lit "Description:" ++ ws ++ c :: v) :: post)
     = Some (c :: v)) /\
  (Forall (fun x => startsWith (lit "Depends:") x = false) pre ->
   getDependenciesFrom (pre ++ (lit "Depends:" ++ ws ++ c :: v) :: post)
     = parseDependencyString (c :: v)).
Proof.
  intros Hws Hc Hv. split_and!; intros Hpre.
  - induction Hpre as [|x pre Hx _ IH]; cbn [app]; rewrite getNameFrom_cons.
    + by rewrite field_capture_value.
    + by rewrite field_capture_not_prefixed.
  - induction Hpre as [|x pre Hx _ IH]; cbn [app];
      rewrite getSummaryFrom_cons.
    + by rewrite field_capture_value.
    + by rewrite field_capture_not_prefixed.
  - induction Hpre as [|x pre Hx _ IH]; cbn [app];
      rewrite getDependenciesFrom_cons.
    + by rewrite field_capture_value.
    + by rewrite field_capture_not_prefixed.
Qed.

Lemma X11_first_field_line_witness :
  getDependenciesFrom
    [lit "Package: p"; lit "Pre-Depends: libc6"; lit "Depends: a, b";
     lit "Depends: c"] = lit "a b".
Proof.
  destruct (X11_first_field_line
              [lit "Package: p"; lit "Pre-Depends: libc6"]
              [lit "Depends: c"] (lit " ") (lit ", b") (ch "a"))
    as (_ & _ & H); [reflexivity | reflexivity | reflexivity |].
  refine (eq_trans (H _) eq_refl). by_compute.
Defined.

(** X12. The dependency string no longer holds a comma, it is what is
    left of the raw value after deleting some of its characters in
    place, and a raw value without a closing parenthesis only loses its
    commas: an unclosed constraint stays. *)
Theorem X12_parseDependencyString_deletes (dependencies : list N) :
  (ch "," ∉ parseDependencyString dependencies) /\
  (parseDependencyString dependencies `sublist_of` dependencies) /\
  (ch ")" ∉ dependencies ->
   parseDependencyString dependencies =
   filter (fun c => c <> ch ",") dependencies).
Proof.
  destruct (parseDependencyString_strip dependencies) as (v & Hv & ->).
  split_and!.
  - rewrite list_elem_of_filter. tauto.
  - etrans; [apply sublist_filter|by apply strip_versions_sublist].
  - intros Hn. f_equal.
    apply (strip_versions_functional dependencies); [done|].
    by apply strip_versions_unclosed.
Qed.

(** X13. A package is never among its own dependents, even when its
    stanza lists its own name in Depends. *)
Theorem X13_never_its_own_dependent (file q : list N) :
  Some q ∉ i_dependents (getInfoFor file q).
Proof.
  rewrite getInfoFor_dependents.
  intros (p & E & Hp)%list_elem_of_fmap.
  apply list_elem_of_filter in Hp as [[Hn _] _]. congruence.
Qed.

(** X14. What a query reports as a dependency reports the queried
    package as a dependent in turn: if the depends of [a] hold a name
    other than [a], the dependents of that name hold [a]. *)
Theorem X14_depends_implies_dependent (file a : list N) (d : dependency) :
  d ∈ i_depends (getInfoFor file a) -> name d <> a ->
  Some a ∈ i_dependents (getInfoFor file (name d)).
Proof.
  rewrite getInfoFor_depends, getInfoFor_dependents.
  intros (t & -> & Ht)%list_elem_of_fmap Hne. cbn [resolve name] in *.
  rewrite elem_of_dedup_first in Ht.
  destruct (target a _) as [p|] eqn:Ep; [|by apply elem_of_nil in Ht].
  apply target_Some in Ep as [Hp Hq]. rewrite <- Hq.
  apply list_elem_of_fmap_2, list_elem_of_filter. split; [|done].
  split; [rewrite Hq; congruence|]. by apply dependencyTokens_flat.
Qed.

Lemma X14_depends_implies_dependent_witness :
  Some (lit "alpha") ∈ i_dependents (getInfoFor alpha_beta (lit "gamma")).
Proof.
  apply (X14_depends_implies_dependent alpha_beta (lit "alpha")
           {| name := lit "gamma"; found := false |});
    by_compute.
Defined.

(** X15. The resolver never lists a name twice, and lists at most as
    many dependencies as the dependency string has tokens. *)
Theorem X15_depends_without_repetition (dependenciesAsString : list N)
    (allPackageNames : list (option (list N))) :
  NoDup (map name (findDependenciesFor dependenciesAsString allPackageNames)) /\
  length (findDependenciesFor dependenciesAsString allPackageNames)
    <= length (split (lit " ") dependenciesAsString).
Proof.
  rewrite findDependenciesFor_resolve, map_name_resolve. split.
  - apply NoDup_dedup_first.
  - rewrite length_map. unfold dependencyTokens.
    destruct (truthy _).
    + rewrite <- Set_of_dedup_first. clear.
      induction (split _ _) as [|t l IH] using rev_ind; [done|].
      unfold Set_of in *. rewrite fold_left_app, length_app. cbn [fold_left].
      unfold Set_add at 1. destruct (includes _ t).
      * lia.
      * rewrite length_app. simpl. lia.
    + simpl. lia.
Qed.

(** X16. A dependency reported as found can be asked for: some stanza
    bears its name and the query for it returns the fields of such a
    stanza; one reported as not found gets the empty answer. *)
Theorem X16_found_means_queryable (file q : list N) (d : dependency) :
  d ∈ i_depends (getInfoFor file q) ->
  (found d = true ->
   exists p, p ∈ getAsParagraphs file /\ packageValue p = Some (name d) /\
     i_summary (getInfoFor file (name d)) = getSummaryFrom (splitIntoLines p) /\
     i_description (getInfoFor file (name d))
       = getDescriptionFrom (splitIntoLines p)) /\
  (found d = false ->
   i_summary (getInfoFor file (name d)) = Some [] /\
   i_description (getInfoFor file (name d)) = [] /\
   i_depends (getInfoFor file (name d)) = []).
Proof.
  rewrite getInfoFor_depends at 1.
  intros (t & -> & _)%list_elem_of_fmap. cbn [resolve name found].
  rewrite !getInfoFor_summary, !getInfoFor_description, getInfoFor_depends.
  split.
  - intros (p & E & Hp)%bool_decide_eq_true%list_elem_of_fmap.
    destruct (target_is_Some t _ p Hp) as [p' Hp']; [done|].
    rewrite Hp'. apply target_Some in Hp' as [? ?]. by exists p'.
  - intros Hnf%bool_decide_eq_false.
    rewrite target_None; [done|]. apply Forall_forall. intros p Hp E.
    apply Hnf. rewrite <- E. by apply list_elem_of_fmap_2.
Qed.

Lemma X16_found_means_queryable_witness :
  i_summary (getInfoFor alpha_beta (lit "gamma")) = Some [] /\
  i_description (getInfoFor alpha_beta (lit "gamma")) = [] /\
  i_depends (getInfoFor alpha_beta (lit "gamma")) = [].
Proof.
  apply (X16_found_means_queryable alpha_beta (lit "alpha")
           {| name := lit "gamma"; found := false |});
    [by_compute | reflexivity].
Defined.

(** ** The sections of the page *)

Import Front.

Section alphabetize_facts.
Implicit Types (m : list (list N * list (list N))) (k n : list N).
Implicit Types (K names : list (list N)).

Lemma dedup_first_snoc {A} `{EqDecision A} (l : list A) x :
  dedup_first (l ++ [x]) =
  if decide (x ∈ l) then dedup_first l else dedup_first l ++ [x].
Proof.
  rewrite <- !Set_of_dedup_first. unfold Set_of.
  rewrite fold_left_app. cbn [fold_left]. unfold Set_add at 1, includes.
  fold (Set_of l). rewrite Set_of_dedup_first.
  destruct (decide (x ∈ l)) as [Hx|Hx].
  - rewrite bool_decide_eq_true_2; [done|]. by apply elem_of_dedup_first.
  - rewrite bool_decide_eq_false_2; [done|]. by rewrite elem_of_dedup_first.
Qed.

Lemma Map_get_map (f : list N -> list (list N)) K k :
  Map_get (map (fun k' => (k', f k')) K) k =
  if decide (k ∈ K) then Some (f k) else None.
Proof.
  induction K as [|k' K IH]; [done|]. cbn [map Map_get].
  destruct (decide (k' = k)) as [->|Hk].
  - rewrite decide_True; [done|by left].
  - rewrite IH. destruct (decide (k ∈ K)) as [Hin|Hin].
    + rewrite decide_True; [done|by right].
    + rewrite decide_False; [done|].
      rewrite elem_of_cons. intros [?|?]; congruence.
Qed.

Lemma Map_set_map_in (f : list N -> list (list N)) K k v :
  NoDup K -> k ∈ K ->
  Map_set (map (fun k' => (k', f k')) K) k v =
  map (fun k' => (k', if decide (k' = k) then v else f k')) K.
Proof.
  induction 1 as [|k' K Hk' HK IH]; [by intros ?%elem_of_nil|].
  intros Hin. cbn [map Map_set].
  destruct (decide (k' = k)) as [->|Hk].
  - f_equal. apply map_ext_in. intros x Hx%list_elem_of_In.
    rewrite decide_False; [done|]. congruence.
  - f_equal. apply IH. apply elem_of_cons in Hin as [?|?]; congruence.
Qed.

Lemma Map_set_snoc m k v :
  Map_get m k = None -> Map_set m k v = m ++ [(k, v)].
Proof.
  induction m as [|[k' v'] m IH]; [done|]. cbn [Map_get Map_set].
  destruct (decide (k' = k)); [done|]. intros H. by rewrite IH.
Qed.

Lemma Map_get_snoc m k v :
  Map_get m k = None -> Map_get (m ++ [(k, v)]) k = Some v.
Proof.
  induction m as [|[k' v'] m IH]; cbn [app Map_get].
  - by rewrite decide_True.
  - destruct (decide (k' = k)); [done|]. exact IH.
Qed.

Lemma Map_set_last m k v v' :
  Map_get m k = None -> Map_set (m ++ [(k, v)]) k v' = m ++ [(k, v')].
Proof.
  induction m as [|[k' v'0] m IH]; cbn [app Map_get Map_set].
  - by rewrite decide_True.
  - destruct (decide (k' = k)); [done|]. intros H. by rewrite IH.
Qed.

Lemma filter_none (P : list N -> Prop) `{forall x, Decision (P x)} names :
  Forall (fun n => ~ P n) names -> filter P names = [].
Proof.
  induction 1 as [|n l Hn _ IH]; [done|]. by rewrite filter_cons_False.
Qed.

Lemma alphabetize_groups names :
  alphabetize names =
  map (fun k => (k, filter (fun n => charAt0 n = k) names))
      (dedup_first (map charAt0 names)).
Proof.
  unfold alphabetize.
  induction names as [|n names IH] using rev_ind; [done|].
  rewrite fold_left_app, IH. clear IH. cbn [fold_left].
  rewrite map_app. cbn [map]. rewrite dedup_first_snoc.
  set (K := dedup_first (map charAt0 names)).
  set (kn := charAt0 n).
  unfold alphabetize_step. fold kn. unfold Map_has. rewrite Map_get_map.
  assert (HK : kn ∈ K <-> kn ∈ map charAt0 names)
    by apply elem_of_dedup_first.
  destruct (decide (kn ∈ K)) as [Hin|Hin].
  - cbn [negb]. rewrite Map_get_map, decide_True by done. cbn [default].
    rewrite decide_True by tauto.
    rewrite Map_set_map_in by (done || apply NoDup_dedup_first).
    apply map_ext_in. intros k _. f_equal.
    rewrite filter_app, filter_cons, filter_nil. fold kn.
    destruct (decide (k = kn)) as [->|Hk].
    + by rewrite decide_True.
    + rewrite decide_False by congruence. by rewrite app_nil_r.
  - cbn [negb]. rewrite decide_False by tauto.
    assert (Hget : Map_get (map (fun k' =>
              (k', filter (fun n0 => charAt0 n0 = k') names)) K) kn = None)
      by by rewrite Map_get_map, decide_False.
    rewrite (Map_set_snoc _ kn []) by done.
    rewrite Map_get_snoc by done. cbn [default app].
    rewrite Map_set_last by done.
    rewrite map_app. cbn [map]. f_equal.
    + apply map_ext_in. intros k Hk%list_elem_of_In. f_equal.
      rewrite filter_app, filter_cons, filter_nil. fold kn.
      rewrite decide_False; [by rewrite app_nil_r|]. congruence.
    + do 2 f_equal. rewrite filter_app, filter_cons, filter_nil. fold kn.
      rewrite decide_True by done. rewrite filter_none; [done|].
      apply Forall_forall. intros x Hx E. apply Hin, HK.
      rewrite <- E. by apply list_elem_of_fmap_2.
Qed.

Lemma concat_groups K names :
  NoDup K -> Forall (fun n => charAt0 n ∈ K) names ->
  concat (map (fun k => filter (fun n => charAt0 n = k) names) K) ≡ₚ names.
Proof.
  intros HK. revert names.
  induction HK as [|k K Hk HK IH]; intros names Hn.
  - destruct names as [|n names]; [done|].
    apply Forall_cons in Hn as [Hn _]. by apply elem_of_nil in Hn.
  - cbn [map concat].
    etrans; [|apply (filter_app_complement (fun n => charAt0 n = k) names)].
    apply Permutation_app_head.
    assert (E : map (fun k' => filter (fun n => charAt0 n = k') names) K =
                map (fun k' => filter (fun n => charAt0 n = k')
                                 (filter (fun n => ~ charAt0 n = k) names)) K).
    { apply map_ext_in. intros k' Hk'%list_elem_of_In.
      rewrite list_filter_filter_l; [done|]. intros x -> ->. done. }
    rewrite E. apply IH.
    apply Forall_forall. intros n [Hne Hin]%list_elem_of_filter.
    rewrite Forall_forall in Hn. specialize (Hn n Hin).
    apply elem_of_cons in Hn as [?|?]; [done|done].
Qed.

(** X17. The map of [createPackageList] has one entry for each first
    letter, in the order in which the letters first occur in the names;
    the entry of a letter holds the names that start with it, in the
    order of the names, so no entry is empty and no letter comes
    twice. *)
Theorem X17_alphabetize_groups (names : list (list N)) :
  alphabetize names =
    map (fun k => (k, filter (fun n => charAt0 n = k) names))
        (dedup_first (map charAt0 names)) /\
  NoDup (map fst (alphabetize names)) /\
  Forall (fun e => snd e <> [] /\ Forall (fun n => charAt0 n = fst e) (snd e))
         (alphabetize names).
Proof.
  rewrite alphabetize_groups. split_and!; [done| |].
  - rewrite map_map. cbn [fst]. rewrite map_id. apply NoDup_dedup_first.
  - apply Forall_forall. intros e (k & -> & Hk)%list_elem_of_fmap.
    cbn [fst snd]. split.
    + apply elem_of_dedup_first, list_elem_of_fmap in Hk as (n & -> & Hn).
      intros E. assert (n ∈ filter (fun n0 => charAt0 n0 = charAt0 n) names)
        as H by by apply list_elem_of_filter.
      rewrite E in H. by apply elem_of_nil in H.
    + apply Forall_forall. by intros n [? _]%list_elem_of_filter.
Qed.

(** X18. The sections of the page hold the names of the list, each as
    often as the list has it: grouping by first letter neither drops nor
    repeats a name. *)
Theorem X18_alphabetize_keeps_names (names : list (list N)) :
  concat (map snd (alphabetize names)) ≡ₚ names.
Proof.
  rewrite alphabetize_groups, map_map. cbn [snd].
  apply concat_groups; [apply NoDup_dedup_first|].
  apply Forall_forall. intros n Hn.
  by apply elem_of_dedup_first, list_elem_of_fmap_2.
Qed.

End alphabetize_facts.

(** ** The two queries on one file *)

Lemma getNameFrom_head lines :
  getNameFrom lines = head (omap (field_capture (lit "Package:")) lines).
Proof.
  induction lines as [|line lines IH]; [done|].
  rewrite getNameFrom_cons. cbn [omap list_omap].
  by destruct (field_capture _ line).
Qed.

Lemma captures_of_join ps :
  ps <> [] ->
  omap (field_capture (lit "Package:"))
       (split_on (ch "010") (join_sep blank_line ps)) =
  concat (map (fun p => omap (field_capture (lit "Package:"))
                             (split_on (ch "010") p)) ps).
Proof.
  induction ps as [|t ps IH]; [done|]. intros _.
  destruct ps as [|u ps].
  - cbn [join_sep map concat]. by rewrite app_nil_r.
  - change (join_sep blank_line (t :: u :: ps))
      with (t ++ ch "010" :: ([ch "010"] ++ join_sep blank_line (u :: ps))).
    rewrite split_on_app, omap_app.
    cbn [app split_on]. rewrite N.eqb_refl.
    cbn [omap list_omap]. rewrite IH by done. done.
Qed.

(** X19. A blank left at the end of a Depends line stays in the
    dependency string and, the split keeping the empty piece after it,
    the package is reported to depend on the empty name. *)
Theorem X19_trailing_blank_in_depends (ws v : list N) (c : N)
    (rest : list (list N)) (names : list (option (list N))) :
  forallb blank ws = true -> blank c = false ->
  forallb dot (c :: v) = true -> ch ")" ∉ c :: v ->
  getDependenciesFrom ((lit "Depends:" ++ ws ++ c :: v ++ [ch " "]) :: rest)
    = filter (fun x => x <> ch ",") (c :: v) ++ [ch " "] /\
  [] ∈ map name
         (findDependenciesFor
            (getDependenciesFrom
               ((lit "Depends:" ++ ws ++ c :: v ++ [ch " "]) :: rest))
            names).
Proof.
  intros Hws Hc Hv Hp.
  assert (E : getDependenciesFrom
                ((lit "Depends:" ++ ws ++ c :: v ++ [ch " "]) :: rest)
              = filter (fun x => x <> ch ",") (c :: v) ++ [ch " "]).
  { rewrite getDependenciesFrom_cons.
    rewrite (field_capture_value _ ws c (v ++ [ch " "])); [|done..|].
    - destruct (parseDependencyString_strip (c :: v ++ [ch " "]))
        as (u & Hu & ->).
      rewrite (strip_versions_functional _ u (c :: v ++ [ch " "]) Hu).
      + change (c :: v ++ [ch " "]) with ((c :: v) ++ [ch " "]).
        by rewrite filter_app.
      + apply strip_versions_unclosed.
        change (c :: v ++ [ch " "]) with ((c :: v) ++ [ch " "]).
        rewrite elem_of_app, list_elem_of_singleton. by intros [?|?].
    - cbn [forallb] in *. apply andb_true_iff in Hv as [-> Hv].
      by rewrite forallb_app, Hv. }
  split; [done|]. rewrite E, findDependenciesFor_resolve, map_name_resolve.
  apply elem_of_dedup_first. unfold dependencyTokens.
  assert (truthy (filter (fun x => x <> ch ",") (c :: v) ++ [ch " "]) = true)
    as -> by by destruct (filter _ _).
  change (lit " ") with [ch " "]. rewrite split_char.
  apply split_on_trailing.
Qed.

Lemma X19_trailing_blank_in_depends_witness :
  getDependenciesFrom [lit "Depends: a, b "] = lit "a b " /\
  [] ∈ map name
         (findDependenciesFor (getDependenciesFrom [lit "Depends: a, b "]) []).
Proof.
  apply (X19_trailing_blank_in_depends (lit " ") (lit ", b") (ch "a") [] []);
    [reflexivity | reflexivity | reflexivity | by_compute].
Defined.

Lemma captures_of_stanzas ps :
  Forall (fun stanza =>
            length (filter (is_field_line packageNameParser)
                           (splitIntoLines stanza)) <= 1) ps ->
  concat (map (fun p => omap (field_capture (lit "Package:"))
                             (split_on (ch "010") p)) ps) =
  omap packageValue ps.
Proof.
  induction 1 as [|p ps Hp _ IH]; [done|].
  cbn [map concat omap list_omap]. rewrite IH. clear IH.
  unfold packageValue. rewrite getNameFrom_head.
  rewrite splitIntoLines_split_on in *.
  assert (Hlen : length (omap (field_capture (lit "Package:"))
                              (split_on (ch "010") p)) <= 1).
  { etrans; [|exact Hp]. clear.
    induction (split_on _ p) as [|l ls IH]; [done|].
    cbn [omap list_omap]. rewrite filter_cons.
    unfold is_field_line in *.
    rewrite packageNameParser_field, str_match_field in *.
    destruct (field_capture _ l).
    - rewrite decide_True by (simpl; eauto). simpl. lia.
    - rewrite decide_False by (simpl; by intros [? ?]). done. }
  destruct (omap _ (split_on _ p)) as [|v [|w l]]; [done|done|].
  simpl in Hlen. lia.
Qed.

(** X20. When no stanza has more than one Package line, the list of
    names is the list of the names of the stanzas, in file order, the
    stanzas without a name left out: the list query and the detail
    query then see the same packages. *)
Theorem X20_name_list_of_stanzas (file : list N) :
  Forall (fun stanza =>
            length (filter (is_field_line packageNameParser)
                           (splitIntoLines stanza)) <= 1)
         (getAsParagraphs file) ->
  getPackageNames file = map Some (omap packageValue (getAsParagraphs file)).
Proof.
  intros Hone. rewrite getPackageNames_captures. f_equal.
  rewrite <- (captures_of_stanzas _ Hone).
  unfold getAsParagraphs, splitIntoParagraphs.
  change (lit (String "010" (String "010" ""))) with blank_line.
  rewrite <- captures_of_join by by apply split_nonempty.
  by rewrite join_split, splitIntoLines_split_on.
Qed.

Lemma X20_name_list_of_stanzas_witness :
  getPackageNames nameless = [Some (lit "beta")].
Proof.
  refine (eq_trans (X20_name_list_of_stanzas nameless _) eq_refl).
  by_compute.
Defined.
